(** * Helix Importer CLI: a shallow embedding of [index.js]

    The development follows the source file top to bottom: the string
    primitives the code relies on, the JavaScript values that travel through
    [throw]/[catch], the argument parser [parseArgs], the retrying fetcher
    [fetchAsTextWithRetry] with its [delay] helper, the failure constructor
    [importFailure], the per-job pipeline [importDocument] and the batch
    runner [main]. *)

From Stdlib Require Import ZArith Ascii String Lia Permutation.
From stdpp Require Import base list strings pretty.

Local Open Scope Z_scope.

(** ** String primitives *)

Module JsString.

(** [s.split(sep)] for a one-character separator: the empty string splits
    into one empty piece. *)
Fixpoint split (sep : ascii) (s : string) : list string :=
  match s with
  | EmptyString => [EmptyString]
  | String a rest =>
      if Ascii.eqb a sep then EmptyString :: split sep rest
      else match split sep rest with
           | [] => [String a EmptyString]
           | piece :: pieces => String a piece :: pieces
           end
  end.

(** [pieces.join(sep)]. *)
Fixpoint join (sep : string) (pieces : list string) : string :=
  match pieces with
  | [] => ""
  | [piece] => piece
  | piece :: rest => piece +:+ sep +:+ join sep rest
  end.

(** [s.startsWith(p)]. *)
Definition startsWith (p s : string) : bool := String.prefix p s.

(** Dropping the first [n] characters. *)
Fixpoint drop_chars (n : nat) (s : string) : string :=
  match n, s with
  | O, _ => s
  | S _, EmptyString => EmptyString
  | S n', String _ rest => drop_chars n' rest
  end.

(** [s.slice(start)]: a negative [start] counts from the end, and the start
    position is clamped to the string. *)
Definition slice (start : Z) (s : string) : string :=
  let len := Z.of_nat (String.length s) in
  let from := if start <? 0 then Z.max (len + start) 0 else Z.min start len in
  drop_chars (Z.to_nat from) s.

(** [s.endsWith(suffix)]. *)
Definition endsWith (suffix s : string) : bool :=
  let n := String.length s in
  let k := String.length suffix in
  (k <=? n)%nat && String.eqb (drop_chars (n - k) s) suffix.

(** [s.lastIndexOf(c)] for a one-character needle: the greatest index at
    which [c] occurs, or [-1]. *)
Fixpoint lastIndexOf (c : ascii) (s : string) : Z :=
  match s with
  | EmptyString => -1
  | String a rest =>
      let later := lastIndexOf c rest in
      if 0 <=? later then later + 1
      else if Ascii.eqb a c then 0 else -1
  end.

(** [' '.repeat(n)]. *)
Fixpoint repeat (s : string) (n : nat) : string :=
  match n with
  | O => ""
  | S n' => s +:+ repeat s n'
  end.

(** Does the character occur in the string? *)
Fixpoint contains (c : ascii) (s : string) : bool :=
  match s with
  | EmptyString => false
  | String a rest => Ascii.eqb a c || contains c rest
  end.

End JsString.

Import JsString.

Definition newline : string := String (ascii_of_nat 10) EmptyString.

(** [indent(text, indentSize = 4)] (lines 106-110) on the string form of
    [text]. *)
Definition indent_by (indentSize : nat) (text : string) : string :=
  let indentText := JsString.repeat " " indentSize in
  join newline (map (fun line => indentText +:+ line) (split "010"%char text)).

Definition indent (text : string) : string := indent_by 4 text.

(** ** Values, thrown errors and outcomes *)

(** [ImportDocument] (line 8).  The three fields come from destructuring the
    array [arg.split('|')]: a missing piece leaves the field [undefined],
    which is [None] here. *)
Record ImportDocument := {
  url : option string;
  targetPath : option string;
  transformerPath : option string
}.

(** The error classes that occur: the two the language itself raises in
    this file, and [Error] for whatever a collaborator (network, module
    loader, converter, filesystem) raises. *)
Inductive error_kind := ReferenceError | TypeError | Error.

(** The JavaScript values that the code passes around, throws and catches.
    [VFun] and [VObject] are functions and host objects, opaque here;
    [VFailure] is the object literal [{ document, reason }] of
    [importFailure] (lines 125-128), an [ImportFailure] of line 9. *)
Inductive value :=
| VUndefined
| VNull
| VBool (b : bool)
| VNum (n : Z)
| VStr (s : string)
| VFun (name : string)
| VObject (class : string)
| VError (kind : error_kind) (message : string)
| VDocument (d : ImportDocument)
| VFailure (document : value) (reason : string).

(** A call either returns or throws; an awaited promise either fulfils or
    rejects.  [await] turns the second into the first, so one type serves. *)
Inductive outcome (A : Type) :=
| Return (a : A)
| Throw (e : value).
Arguments Return {A} a.
Arguments Throw {A} e.

(** Truthiness, as [!!x] and [if (x)] use it. *)
Definition truthy (v : value) : bool :=
  match v with
  | VUndefined | VNull => false
  | VBool b => b
  | VNum n => negb (n =? 0)
  | VStr s => negb (String.eqb s "")
  | VFun _ | VObject _ | VError _ _ | VDocument _ | VFailure _ _ => true
  end.

Definition error_name (k : error_kind) : string :=
  match k with
  | ReferenceError => "ReferenceError"
  | TypeError => "TypeError"
  | Error => "Error"
  end.

(** String conversion, as a template literal performs it. *)
Definition toString (v : value) : string :=
  match v with
  | VUndefined => "undefined"
  | VNull => "null"
  | VBool true => "true"
  | VBool false => "false"
  | VNum n => pretty n
  | VStr s => s
  | VFun name => "function " +:+ name
  | VError k "" => error_name k
  | VError k message => error_name k +:+ ": " +:+ message
  | VObject _ | VDocument _ | VFailure _ _ => "[object Object]"
  end.

Definition of_option (o : option string) : value :=
  match o with
  | Some s => VStr s
  | None => VUndefined
  end.

(** ** The console *)

Inductive level := LDebug | LWarn | LError.

Definition Console := list (level * string).

(** ** Argument parser: [parseArgs] (lines 26-64) *)

(** [AppConfig] (line 7). *)
Record AppConfig := {
  documents : list ImportDocument;
  parallel : bool
}.

Definition set_parallel (b : bool) (config : AppConfig) : AppConfig :=
  {| documents := documents config; parallel := b |}.

Definition push_document (d : ImportDocument) (config : AppConfig) : AppConfig :=
  {| documents := documents config ++ [d]; parallel := parallel config |}.

(** [arg.slice(2).split('=', 2)]: the limit keeps the first two pieces. *)
Definition option_parts (arg : string) : list string :=
  take 2 (split "=" (slice 2 arg)).

(** [const [url, targetPath, transformerPath] = arg.split('|')]. *)
Definition document_of_token (arg : string) : ImportDocument :=
  let parts := split "|" arg in
  {| url := parts !! 0%nat;
     targetPath := parts !! 1%nat;
     transformerPath := parts !! 2%nat |}.

(** One turn of the loop body (lines 34-60) on the configuration built so
    far and the console. *)
Definition parseArg (st : AppConfig * Console) (arg : string) : AppConfig * Console :=
  let (config, console) := st in
  if startsWith "--" arg then
    let parts := option_parts arg in
    let name := parts !! 0%nat in
    let value := parts !! 1%nat in
    if decide (name = Some "parallel") then
      match value with
      | None => (set_parallel true config, console)
      | Some v =>
          if String.eqb v "true" then (set_parallel true config, console)
          else if String.eqb v "false" then (set_parallel false config, console)
          else (config,
                console ++ [(LWarn, "Invalid value for argument --parallel '" +:+ v +:+ "'")])
      end
    else
      (config,
       console ++ [(LWarn, "Invalid argument name '" +:+ toString (of_option name) +:+ "'")])
  else
    (push_document (document_of_token arg) config, console).

Definition initial_config : AppConfig := {| documents := []; parallel := true |}.

Definition parseArgs_from (st : AppConfig * Console) (args : list string) : AppConfig * Console :=
  foldl parseArg st args.

Definition parseArgs (args : list string) : AppConfig * Console :=
  parseArgs_from (initial_config, []) args.

(** ** Effects: console output and exceptions *)

(** A computation yields an outcome and the lines it printed. *)
Definition M (A : Type) : Type := outcome A * Console.

Definition ret {A} (a : A) : M A := (Return a, []).

Definition throw {A} (e : value) : M A := (Throw e, []).

Definition lift {A} (o : outcome A) : M A := (o, []).

Definition log (l : level) (message : string) : M unit := (Return tt, [(l, message)]).

Definition bind {A B} (m : M A) (k : A -> M B) : M B :=
  match m with
  | (Return a, out) => let (o, out') := k a in (o, out ++ out')
  | (Throw e, out) => (Throw e, out)
  end.

(** [try { body } catch (e) { handler }]. *)
Definition try_catch {A} (body : M A) (handler : value -> M A) : M A :=
  match body with
  | (Return a, out) => (Return a, out)
  | (Throw e, out) => let (o, out') := handler e in (o, out ++ out')
  end.

Definition bindO {A B} (o : outcome A) (k : A -> outcome B) : outcome B :=
  match o with
  | Return a => k a
  | Throw e => Throw e
  end.

Fixpoint mapO {A B} (f : A -> outcome B) (l : list A) : outcome (list B) :=
  match l with
  | [] => Return []
  | a :: rest => bindO (f a) (fun b => bindO (mapO f rest) (fun bs => Return (b :: bs)))
  end.

Declare Scope js_scope.
Delimit Scope js_scope with js.
Notation "x <- m ; k" := (bind m (fun x => k))
  (at level 20, m at level 100, k at level 200) : js_scope.
Notation "m ;; k" := (bind m (fun _ => k))
  (at level 100, k at level 200, right associativity) : js_scope.
Local Open Scope js_scope.

(** ** The [delay] helper (lines 17-19) *)

(** Node's [setTimeout(callback, after)] validates its first argument:
    anything but a function raises a [TypeError] (ERR_INVALID_ARG_TYPE). *)
Definition setTimeout (callback after : value) : outcome value :=
  match callback with
  | VFun _ => Return (VObject "Timeout")
  | _ => Throw (VError TypeError "The callback argument must be of type function")
  end.

(** [await new Promise(resolve => setTimeout(ms, resolve))]: the executor
    runs at once, with [ms] where the callback belongs and the resolving
    function where the delay belongs.  If it throws, the promise rejects with
    what was thrown and [await] rethrows it; [Return] is the answer of a
    timer that was armed. *)
Definition delay (ms : Z) : M unit :=
  match setTimeout (VNum ms) (VFun "resolve") with
  | Throw e => throw e
  | Return _ => ret tt
  end.

(** ** Retrying fetcher: [fetchAsTextWithRetry] (lines 73-98) *)

(** What the code reads of a response: its status, and the body that
    [response.text()] resolves to (or the error it rejects with). *)
Record Response := {
  status : Z;
  text : outcome string
}.

(** The network as the fetcher sees it: the reply to the [k]-th request
    ([k] counted from 0) that one call of the fetcher issues for a URL;
    [Throw] is a network-level error. *)
Definition Network := string -> nat -> outcome Response.

Inductive loop_exit := Continue | Break.

Section Retry.

(** The pause between attempts; the source calls [delay] here. *)
Variable pause : Z -> M unit.

(** One turn of the loop body (lines 76-94): the attempt, and the value
    of [result] after it. *)
Definition attempt (fetch : Network) (url : string) (iter : Z)
    (delayBetweenRetries : Z) (result : value) : M (loop_exit * value) :=
  try_catch
    (log LDebug ("Attempt " +:+ pretty iter +:+ " to fetch URL " +:+ url);;
     response <- lift (fetch url (Z.to_nat iter));
     if negb (status response =? 200) then
       log LError "Response status was not 200";;
       pause delayBetweenRetries;;
       ret (Continue, result)
     else
       responseText <- lift (text response);
       ret (Break, VStr responseText))
    (fun e =>
       log LError ("Failed to fetch URL " +:+ url +:+ newline +:+ indent (toString e));;
       pause delayBetweenRetries;;
       ret (Continue, result)).

(** The [for] loop: [remaining] counts the turns for which
    [iter < maxRetries] still holds. *)
Fixpoint retry_loop (fetch : Network) (url : string) (remaining : nat) (iter : Z)
    (delayBetweenRetries : Z) (result : value) : M value :=
  match remaining with
  | O => ret result
  | S remaining' =>
      step <- attempt fetch url iter delayBetweenRetries result;
      match step with
      | (Break, result') => ret result'
      | (Continue, result') =>
          retry_loop fetch url remaining' (iter + 1) delayBetweenRetries result'
      end
  end.

End Retry.

Definition fetchAsTextWithRetry (fetch : Network) (url : string)
    (maxRetries delayBetweenRetries : Z) : M value :=
  retry_loop delay fetch url (Z.to_nat maxRetries) 0 delayBetweenRetries VNull.

(** ** Failure records: [importFailure] (lines 118-131) *)

(** Identifiers that a function body does not bind itself are looked up in
    the enclosing scopes; one that no scope binds raises a
    [ReferenceError]. *)
Definition scope := list (string * value).

Fixpoint lookup_ident (x : string) (sc : scope) : option value :=
  match sc with
  | [] => None
  | (y, v) :: rest => if String.eqb x y then Some v else lookup_ident x rest
  end.

Definition resolve (sc : scope) (x : string) : outcome value :=
  match lookup_ident x sc with
  | Some v => Return v
  | None => Throw (VError ReferenceError (x +:+ " is not defined"))
  end.

(** The globals the file uses, with [WebImporter], which [main] installs
    (line 196) before any job runs. *)
Definition global_scope : scope :=
  [("console", VObject "console"); ("process", VObject "process");
   ("global", VObject "global"); ("JSON", VObject "JSON");
   ("fetch", VFun "fetch"); ("setTimeout", VFun "setTimeout");
   ("Promise", VFun "Promise"); ("WebImporter", VObject "Module")].

(** The bindings of the module: its four imports (lines 1-4) and its seven
    top-level constants. *)
Definition module_scope : scope :=
  [("helix", VObject "Module"); ("JSDOM", VFun "JSDOM");
   ("fs", VObject "Module"); ("path", VObject "Module");
   ("delay", VFun "delay"); ("parseArgs", VFun "parseArgs");
   ("fetchAsTextWithRetry", VFun "fetchAsTextWithRetry");
   ("indent", VFun "indent"); ("importFailure", VFun "importFailure");
   ("importDocument", VFun "importDocument"); ("main", VFun "main")]
  ++ global_scope.

(** The body binds [reason], [error], [reasonText] and [failure]; it reads
    [e] (line 121) and [doc] (line 126), which it does not bind. *)
Definition importFailure (reason : string) (error : value) : outcome value :=
  let params := [("reason", VStr reason); ("error", error)] ++ module_scope in
  bindO (if truthy error
         then bindO (resolve (("reasonText", VStr reason) :: params) "e")
                (fun e => Return (reason +:+ newline +:+ indent (toString e)))
         else Return reason)
    (fun reasonText =>
       bindO (resolve (("reasonText", VStr reasonText) :: params) "doc")
         (fun doc => Return (VFailure doc reasonText))).

(** [throw f(...)]: the call is evaluated first, and may itself throw. *)
Definition throw_result {A} (call : outcome value) : M A :=
  match call with
  | Return v => throw v
  | Throw e => throw e
  end.

(** ** [JSON.stringify(v, null, 4)] *)

Module Json.

Definition quote_mark : string := String (ascii_of_nat 34) EmptyString.
Definition backslash : string := String (ascii_of_nat 92) EmptyString.

Definition hex_digit (n : nat) : string :=
  String.substring n 1 "0123456789abcdef".

Definition escape_char (a : ascii) : string :=
  let n := nat_of_ascii a in
  if (n =? 34)%nat then backslash +:+ quote_mark
  else if (n =? 92)%nat then backslash +:+ backslash
  else if (n =? 8)%nat then backslash +:+ "b"
  else if (n =? 12)%nat then backslash +:+ "f"
  else if (n =? 10)%nat then backslash +:+ "n"
  else if (n =? 13)%nat then backslash +:+ "r"
  else if (n =? 9)%nat then backslash +:+ "t"
  else if (n <? 32)%nat
       then backslash +:+ "u00" +:+ hex_digit (n / 16) +:+ hex_digit (n mod 16)
  else String a EmptyString.

Fixpoint escape (s : string) : string :=
  match s with
  | EmptyString => ""
  | String a rest => escape_char a +:+ escape rest
  end.

Definition quote (s : string) : string := quote_mark +:+ escape s +:+ quote_mark.

(** An object whose members are given with their serialised values;
    members whose value is [undefined] ([None]) are left out. *)
Definition object (gap : string) (members : list (string * option string)) : string :=
  let inner := gap +:+ "    " in
  let present :=
    omap (fun m => match m.2 with
                   | Some v => Some (inner +:+ quote m.1 +:+ ": " +:+ v)
                   | None => None
                   end) members in
  match present with
  | [] => "{}"
  | _ => "{" +:+ newline +:+ join ("," +:+ newline) present +:+ newline +:+ gap +:+ "}"
  end.

(** [None] is the result [undefined]. *)
Fixpoint serialize (gap : string) (v : value) : option string :=
  match v with
  | VUndefined | VFun _ => None
  | VNull => Some "null"
  | VBool _ | VNum _ => Some (toString v)
  | VStr s => Some (quote s)
  | VObject _ | VError _ _ => Some "{}"
  | VDocument d =>
      Some (object gap [("url", quote <$> url d);
                        ("targetPath", quote <$> targetPath d);
                        ("transformerPath", quote <$> transformerPath d)])
  | VFailure document reason =>
      Some (object gap [("document", serialize (gap +:+ "    ") document);
                        ("reason", Some (quote reason))])
  end.

Definition stringify (v : value) : value :=
  match serialize "" v with
  | Some s => VStr s
  | None => VUndefined
  end.

End Json.

(** ** The job pipeline: [importDocument] (lines 138-193) *)

(** [ImportResult] (line 10). *)
Record ImportResult := {
  docx : list Byte.byte;
  html : string;
  md : string;
  path : string
}.

Section Pipeline.

(** The DOM types belong to the conversion library. *)
Context {Element Document Params : Type}.

(** The argument [{ url, document, html, params }] of a transformer
    function. *)
Record TransformArgs := {
  arg_url : string;
  arg_document : Document;
  arg_html : string;
  arg_params : Params
}.

(** The default export of a transformer module, seen through the two
    properties the pipeline tests; [None] is a property that is absent
    (or otherwise falsy). *)
Record Transformer := {
  transformDOM : option (TransformArgs -> outcome Element);
  transform : option (TransformArgs -> outcome (list (Element * string)))
}.

(** [transformConfig], in the two shapes the pipeline builds
    (lines 155-158 and 160-169). *)
Inductive TransformConfig :=
| DOMConfig (transformDOM : TransformArgs -> outcome Element)
            (generateDocumentPath : TransformArgs -> option string)
| FragmentConfig (transform : TransformArgs -> outcome (list (Element * string))).

(** The collaborators of the pipeline: the module loader
    ([(await import(p)).default], [None] being a default export that is
    [undefined] or [null]), the conversion routine [helix.html2docx]
    (its fourth argument, the JSDOM factory, is a constant of the call),
    and the [node:path] and [node:fs/promises] functions used. *)
Record Host := {
  import_default : string -> outcome (option Transformer);
  html2docx : string -> string -> TransformConfig -> outcome ImportResult;
  dirname : string -> string;
  mkdir : string -> outcome unit;
  writeFile : string -> list Byte.byte -> outcome unit
}.

(** The path of a fragment (line 167):
    [`${targetPath}${targetPath.endsWith('/') ? '' : '/'}${path.slice(path.lastIndexOf('/') + 1)}`]. *)
Definition rewritePath (targetPath : option string) (path : string) : outcome string :=
  match targetPath with
  | None =>
      Throw (VError TypeError "Cannot read properties of undefined (reading 'endsWith')")
  | Some dir =>
      Return (dir +:+ (if endsWith "/" dir then "" else "/")
                  +:+ slice (lastIndexOf "/" path + 1) path)
  end.

Definition invalid_transformer : string :=
  "Invalid transformer, it doesn't have either a transformDOM or transform function,"
  +:+ newline
  +:+ "see https://github.com/adobe/helix-importer?tab=readme-ov-file#html2x-helpers".

(** The dispatch on the capabilities of the transformer (lines 153-172). *)
Definition buildTransformConfig (targetPath : option string)
    (transformer : option Transformer) : outcome TransformConfig :=
  match transformer with
  | None =>
      Throw (VError TypeError "Cannot read properties of undefined (reading 'transformDOM')")
  | Some t =>
      match transformDOM t with
      | Some f => Return (DOMConfig (fun args => f args) (fun _ => targetPath))
      | None =>
          match transform t with
          | Some g =>
              Return (FragmentConfig (fun args =>
                bindO (g args)
                  (mapO (fun item =>
                     bindO (rewritePath targetPath item.2)
                       (fun path' => Return (item.1, path'))))))
          | None =>
              bindO (importFailure invalid_transformer VUndefined) Throw
          end
      end
  end.

Definition describe (doc : ImportDocument) : string :=
  indent (toString (Json.stringify (VDocument doc))).

Definition importDocument (fetch : Network) (host : Host) (doc : ImportDocument)
    : M ImportResult :=
  let url := toString (of_option (url doc)) in
  log LDebug ("Attemtping to import document" +:+ newline +:+ describe doc);;
  htmlText <- fetchAsTextWithRetry fetch url 3 250;
  (if negb (truthy htmlText)
   then throw_result (importFailure "Failed to fetch URL" VNull)
   else ret tt);;
  transformer <-
    try_catch
      (lift (import_default host (toString (of_option (transformerPath doc)))))
      (fun e => throw_result (importFailure "Failed to import transformer" e));
  transformConfig <- lift (buildTransformConfig (targetPath doc) transformer);
  result <-
    try_catch
      (lift (html2docx host url (toString htmlText) transformConfig))
      (fun e => throw_result (importFailure "Failed to transform html2docx" e));
  try_catch
    (lift (mkdir host (dirname host (path result)));;
     lift (writeFile host (path result) (docx result)))
    (fun e =>
       throw_result
         (importFailure "Failed writing the resulting document to the filesystem" e));;
  log LDebug ("Successfully imported document" +:+ newline +:+ describe doc);;
  ret result.

End Pipeline.

Arguments TransformArgs : clear implicits.
Arguments Transformer : clear implicits.
Arguments TransformConfig : clear implicits.
Arguments Host : clear implicits.

(** ** The batch runner: [main] (lines 195-229) *)

(** An entry of the array that [Promise.allSettled] resolves to. *)
Inductive PromiseSettledResult (A : Type) :=
| Fulfilled (result : A)
| Rejected (reason : value).
Arguments Fulfilled {A} result.
Arguments Rejected {A} reason.

Definition settle {A} (o : outcome A) : PromiseSettledResult A :=
  match o with
  | Return a => Fulfilled a
  | Throw e => Rejected e
  end.

Definition rejection {A} (r : PromiseSettledResult A) : option value :=
  match r with
  | Fulfilled _ => None
  | Rejected e => Some e
  end.

(** [Promise.allSettled(promises)]: the result array has one slot per
    promise, at the promise's index in the argument.  A promise that settles
    fills its own slot; the returned promise fulfils with the array once no
    slot is pending.  [schedule] names the promises, by index, in the order
    in which they settle; [None] is a result that never arrives. *)
Definition fill_slot {A} (promises : list (outcome A))
    (values : list (option (PromiseSettledResult A))) (i : nat)
    : list (option (PromiseSettledResult A)) :=
  match promises !! i with
  | Some o => <[i := Some (settle o)]> values
  | None => values
  end.

Definition allSettled {A} (promises : list (outcome A)) (schedule : list nat)
    : option (list (PromiseSettledResult A)) :=
  mapM id (foldl (fill_slot promises) (replicate (length promises) None) schedule).

(** What a run of the batch leaves behind: the jobs whose pipeline was
    started, in starting order, and the list [failures]. *)
Record BatchRun := {
  attempted : list ImportDocument;
  failures : list value
}.

(** Reading a property, as the destructuring of line 225 does. *)
Definition get_property (name : string) (v : value) : outcome value :=
  match v with
  | VUndefined | VNull =>
      Throw (VError TypeError ("Cannot destructure property '" +:+ name +:+ "'"))
  | VFailure document reason =>
      if String.eqb name "document" then Return document
      else if String.eqb name "reason" then Return (VStr reason)
      else Return VUndefined
  | VDocument d =>
      if String.eqb name "url" then Return (of_option (url d))
      else if String.eqb name "targetPath" then Return (of_option (targetPath d))
      else if String.eqb name "transformerPath" then Return (of_option (transformerPath d))
      else Return VUndefined
  | VError k message =>
      if String.eqb name "message" then Return (VStr message)
      else if String.eqb name "name" then Return (VStr (error_name k))
      else Return VUndefined
  | _ => Return VUndefined
  end.

(** The report (lines 223-228). *)
Definition report_failure (failure : value) : M unit :=
  importDocument <- lift (get_property "document" failure);
  reason <- lift (get_property "reason" failure);
  log LError ("Failed to import" +:+ newline
              +:+ indent (toString (Json.stringify importDocument)) +:+ newline
              +:+ indent (toString reason)).

Fixpoint report_each (failures : list value) : M unit :=
  match failures with
  | [] => ret tt
  | failure :: rest => report_failure failure;; report_each rest
  end.

Definition report (failures : list value) : M unit :=
  if negb (length failures =? 0)%nat then
    log LError ("Failed to import " +:+ pretty (length failures) +:+ " documents");;
    report_each failures
  else ret tt.

Section Batch.

Context {R : Type}.

(** The settlement of the pipeline of a job. *)
Variable run : ImportDocument -> outcome R.

(** Parallel mode (lines 204-210): every pipeline is started by the [map],
    in list order, and the failures are read off the settled array. *)
Definition runParallel (docs : list ImportDocument) (schedule : list nat)
    : option BatchRun :=
  let launched := map (fun doc => (doc, run doc)) docs in
  match allSettled launched.*2 schedule with
  | Some promiseResults =>
      Some {| attempted := launched.*1; failures := omap rejection promiseResults |}
  | None => None
  end.

(** Sequential mode (lines 212-220): one turn of the [for ... of]. *)
Definition runNext (acc : BatchRun) (doc : ImportDocument) : BatchRun :=
  match run doc with
  | Return _ =>
      {| attempted := attempted acc ++ [doc]; failures := failures acc |}
  | Throw e =>
      {| attempted := attempted acc ++ [doc]; failures := failures acc ++ [e] |}
  end.

Definition runSequential (docs : list ImportDocument) : BatchRun :=
  foldl runNext {| attempted := []; failures := [] |} docs.


End Batch.


(** * The vocabulary of the properties *)

(** A token is a job unless it begins with two dashes. *)
Definition is_job_token (arg : string) : bool := negb (startsWith "--" arg).

(** What a token says about the flag: [Some b] for a [--parallel] option
    whose value is absent, [true] or [false]; [None] for anything else. *)
Definition parallel_option (arg : string) : option bool :=
  if startsWith "--" arg then
    let parts := option_parts arg in
    if decide (parts = ["parallel"]) then Some true
    else if decide (parts = ["parallel"; "true"]) then Some true
    else if decide (parts = ["parallel"; "false"]) then Some false
    else None
  else None.

(** The final segment of a path: what follows its last slash. *)
Definition last_segment (p : string) : string := default "" (last (split "/" p)).

(** Joining a segment under a directory: a slash is inserted unless the
    directory already ends in one. *)
Definition join_under (dir seg : string) : string :=
  if endsWith "/" dir then dir +:+ seg else dir +:+ "/" +:+ seg.

(** What the misplaced arguments of [setTimeout] raise. *)
Definition timer_error : value :=
  VError TypeError "The callback argument must be of type function".

(** The body text of a reply that succeeds: status 200 and a readable
    body. *)
Definition body_of (reply : outcome Response) : option string :=
  match reply with
  | Return response =>
      if status response =? 200
      then match text response with
           | Return t => Some t
           | Throw _ => None
           end
      else None
  | Throw _ => None
  end.

Definition is_attempt_line (line : level * string) : bool :=
  match line.1 with
  | LDebug => true
  | _ => false
  end.

(** The first successful reply among the [n] replies from [from] on. *)
Fixpoint first_body (fetch : Network) (url : string) (from n : nat) : option string :=
  match n with
  | O => None
  | S n' =>
      match body_of (fetch url from) with
      | Some t => Some t
      | None => first_body fetch url (S from) n'
      end
  end.

Definition unbound (x : string) : value :=
  VError ReferenceError (x +:+ " is not defined").

(** The values the language itself raises in this file. *)
Definition raised_by_language (e : value) : Prop :=
  e = unbound "e" \/ e = unbound "doc" \/ exists message, e = VError TypeError message.

(** What a settlement contributes to the failures. *)
Definition thrown {R} (o : outcome R) : option value :=
  match o with
  | Return _ => None
  | Throw e => Some e
  end.

Section BatchVocabulary.

Context {R : Type}.

(** The settlement of the pipeline of a job. *)
Variable run : ImportDocument -> outcome R.

(** The failures of the jobs, in the order of the job list. *)
Definition failures_in_list_order (docs : list ImportDocument) : list value :=
  omap (fun doc => thrown (run doc)) docs.

(** The failures of the jobs, in the order in which the jobs settle. *)
Definition failures_in_settlement_order (docs : list ImportDocument)
    (schedule : list nat) : list value :=
  omap (fun i => match docs !! i with
                 | Some doc => thrown (run doc)
                 | None => None
                 end) schedule.

Definition fails (doc : ImportDocument) : bool :=
  match run doc with
  | Return _ => false
  | Throw _ => true
  end.

End BatchVocabulary.

(** ** Jobs and collaborators for the examples *)

Definition unavailable : Response := {| status := 503; text := Return "Service Unavailable" |}.
Definition page : Response := {| status := 200; text := Return "<html></html>" |}.

(** A server that answers 503 once and 200 from then on. *)
Definition recovering : Network :=
  fun _ k => match k with
             | O => Return unavailable
             | S _ => Return page
             end.

Definition serving : Network := fun _ _ => Return page.

Definition a_down : Network :=
  fun url _ =>
    if String.eqb url "https://example.com/a" then Return unavailable else Return page.

(** Two jobs. *)
Definition job_a : ImportDocument :=
  document_of_token "https://example.com/a|out/a.docx|./t.js".

Definition job_b : ImportDocument :=
  document_of_token "https://example.com/b|out/b.docx|./t.js".

Definition no_module : Host unit unit unit :=
  {| import_default := fun _ => Throw (VError Error "Cannot find module");
     html2docx := fun _ _ _ => Throw (VError Error "not reached");
     dirname := fun p => p;
     mkdir := fun _ => Return tt;
     writeFile := fun _ _ => Return tt |}.

Definition converting : Host unit unit unit :=
  {| import_default := fun _ =>
       Return (Some {| transformDOM := Some (fun _ => Return tt); transform := None |});
     html2docx := fun url htmlText config =>
       Return {| docx := []; html := htmlText; md := "";
                 path := match config with
                         | DOMConfig _ generateDocumentPath =>
                             default "" (generateDocumentPath
                                           {| arg_url := url; arg_document := tt;
                                              arg_html := htmlText; arg_params := tt |})
                         | FragmentConfig _ => ""
                         end |};
     dirname := fun _ => "out";
     mkdir := fun _ => Return tt;
     writeFile := fun _ _ => Return tt |}.

(** An option token that sets nothing: its name is not [parallel], or its
    value is none of absent, [true], [false]. *)
Definition is_invalid_option (arg : string) : bool :=
  startsWith "--" arg &&
  match parallel_option arg with
  | Some _ => false
  | None => true
  end.

(** The lines of a single attempt of the fetcher: the line of the attempt,
    the line of the status when it was not 200, and the line of the
    failure with the error that was caught. *)
Definition fetch_lines (url : string) (caught : option value) (bad_status : bool)
    : Console :=
  [(LDebug, "Attempt 0 to fetch URL " +:+ url)]
  ++ (if bad_status then [(LError, "Response status was not 200")] else [])
  ++ match caught with
     | Some e =>
         [(LError, "Failed to fetch URL " +:+ url +:+ newline +:+ indent (toString e))]
     | None => []
     end.

(** What a guarded stage of the pipeline rejects with when the stage failed
    with [e]. *)
Definition failure_of (e : value) : value :=
  unbound (if truthy e then "e" else "doc").

(** The settlement of the pipeline read off the answers of its
    collaborators, stage by stage: fetch, load, dispatch, convert, make the
    directory, write. *)
Definition pipeline_outcome {Element Document Params : Type}
    (fetch : Network) (host : Host Element Document Params) (doc : ImportDocument)
    : outcome ImportResult :=
  let address := toString (of_option (url doc)) in
  match body_of (fetch address 0%nat) with
  | None => Throw timer_error
  | Some t =>
      if String.eqb t "" then Throw (unbound "doc")
      else
        match import_default host (toString (of_option (transformerPath doc))) with
        | Throw e => Throw (failure_of e)
        | Return transformer =>
            match buildTransformConfig (targetPath doc) transformer with
            | Throw e => Throw e
            | Return config =>
                match html2docx host address t config with
                | Throw e => Throw (failure_of e)
                | Return result =>
                    match mkdir host (dirname host (path result)) with
                    | Throw e => Throw (failure_of e)
                    | Return _ =>
                        match writeFile host (path result) (docx result) with
                        | Throw e => Throw (failure_of e)
                        | Return _ => Return result
                        end
                    end
                end
            end
        end
  end.


(** What calling [endsWith] on a missing output path raises. *)
Definition no_output_path : value :=
  VError TypeError "Cannot read properties of undefined (reading 'endsWith')".

(** [null] and [undefined], the values that cannot be destructured. *)
Definition nullish (v : value) : bool :=
  match v with
  | VUndefined | VNull => true
  | _ => false
  end.

(** The line of the report for a failure that has neither a [document] nor
    a [reason]. *)
Definition anonymous_line : level * string :=
  (LError, "Failed to import" +:+ newline +:+ "    undefined" +:+ newline
           +:+ "    undefined").

(** The line that opens the report. *)
Definition count_line (n : nat) : level * string :=
  (LError, "Failed to import " +:+ pretty n +:+ " documents").

(** The first and the last line of a pipeline that fulfils. *)
Definition start_line (doc : ImportDocument) : level * string :=
  (LDebug, "Attemtping to import document" +:+ newline +:+ describe doc).

Definition success_line (doc : ImportDocument) : level * string :=
  (LDebug, "Successfully imported document" +:+ newline +:+ describe doc).

(** * Properties *)

(** ** Facts about the string primitives *)

Lemma append_empty_l (s : string) : "" +:+ s = s.
Proof. reflexivity. Qed.

Lemma append_cons (a : ascii) (s t : string) : String a s +:+ t = String a (s +:+ t).
Proof. reflexivity. Qed.

Lemma length_append (s t : string) :
  String.length (s +:+ t) = (String.length s + String.length t)%nat.
Proof.
  induction s as [|a s IH]; [reflexivity|].
  rewrite append_cons. simpl. rewrite IH. reflexivity.
Qed.

Lemma split_not_nil (c : ascii) (s : string) : split c s <> [].
Proof.
  induction s as [|a s IH]; simpl; [discriminate|].
  destruct (Ascii.eqb a c); [discriminate|].
  destruct (split c s); discriminate.
Qed.

Lemma split_without (c : ascii) (s : string) :
  contains c s = false -> split c s = [s].
Proof.
  induction s as [|a s IH]; simpl; [reflexivity|].
  destruct (Ascii.eqb a c); simpl; [discriminate|].
  intros H. rewrite (IH H). reflexivity.
Qed.

Lemma split_first_piece (c : ascii) (s rest : string) :
  contains c s = false ->
  split c (s +:+ String c rest) = s :: split c rest.
Proof.
  induction s as [|a s IH].
  - intros _. rewrite append_empty_l. simpl. rewrite Ascii.eqb_refl. reflexivity.
  - simpl. destruct (Ascii.eqb a c) eqn:E; simpl; [discriminate|].
    intros H. rewrite (IH H). reflexivity.
Qed.

Lemma drop_chars_app (s t : string) : drop_chars (String.length s) (s +:+ t) = t.
Proof.
  induction s as [|a s IH]; [destruct t; reflexivity|].
  rewrite append_cons. simpl. exact IH.
Qed.

Lemma slice_prefix (p s : string) :
  slice (Z.of_nat (String.length p)) (p +:+ s) = s.
Proof.
  unfold slice. rewrite length_append.
  destruct (Z.ltb_spec (Z.of_nat (String.length p)) 0) as [H|H]; [lia|].
  rewrite Z.min_l by lia. rewrite Nat2Z.id. apply drop_chars_app.
Qed.

(** ** The argument parser *)

Lemma parseArgs_from_cons st arg args :
  parseArgs_from st (arg :: args) = parseArgs_from (parseArg st arg) args.
Proof. reflexivity. Qed.

Lemma parseArgs_from_snoc st args arg :
  parseArgs_from st (args ++ [arg]) = parseArg (parseArgs_from st args) arg.
Proof. unfold parseArgs_from. rewrite foldl_app. reflexivity. Qed.

Lemma option_parts_shape (arg : string) :
  (exists name, option_parts arg = [name]) \/
  (exists name v, option_parts arg = [name; v]).
Proof.
  unfold option_parts.
  pose proof (split_not_nil "=" (slice 2 arg)) as Hne.
  destruct (split "=" (slice 2 arg)) as [|name [|v rest]]; [congruence| |].
  - left. exists name. reflexivity.
  - right. exists name, v. reflexivity.
Qed.

Lemma parseArg_documents st arg :
  documents (parseArg st arg).1 =
  documents st.1 ++ (if is_job_token arg then [document_of_token arg] else []).
Proof.
  destruct st as [config console]. unfold parseArg, is_job_token.
  destruct (startsWith "--" arg); simpl; [|reflexivity].
  rewrite app_nil_r.
  destruct (decide _); [|reflexivity].
  destruct (option_parts arg !! 1%nat) as [v|]; [|reflexivity].
  destruct (String.eqb v "true"); [reflexivity|].
  destruct (String.eqb v "false"); reflexivity.
Qed.

Lemma parseArg_parallel st arg :
  parallel (parseArg st arg).1 = default (parallel st.1) (parallel_option arg).
Proof.
  destruct st as [config console]. unfold parseArg, parallel_option.
  destruct (startsWith "--" arg); simpl; [|reflexivity].
  destruct (option_parts_shape arg) as [[name ->]|[name [v ->]]]; simpl.
  - repeat case_decide; simplify_eq; reflexivity.
  - destruct (String.eqb_spec v "true") as [->|Ht];
      [repeat case_decide; simplify_eq; reflexivity|].
    destruct (String.eqb_spec v "false") as [->|Hf];
      repeat case_decide; simplify_eq; reflexivity.
Qed.

Lemma parseArgs_from_documents args : forall st,
  documents (parseArgs_from st args).1 =
  documents st.1 ++ map document_of_token (List.filter is_job_token args).
Proof.
  induction args as [|arg args IH]; intros st.
  - simpl. rewrite app_nil_r. reflexivity.
  - rewrite parseArgs_from_cons, IH, parseArg_documents. simpl.
    destruct (is_job_token arg); simpl.
    + rewrite <- app_assoc. reflexivity.
    + rewrite app_nil_r. reflexivity.
Qed.

Lemma parseArgs_from_parallel args : forall st,
  parallel (parseArgs_from st args).1 =
  default (parallel st.1) (last (omap parallel_option args)).
Proof.
  induction args as [|arg args IH]; intros st; [reflexivity|].
  rewrite parseArgs_from_cons, IH, parseArg_parallel. clear IH. simpl.
  destruct (parallel_option arg) as [b|]; simpl; [|reflexivity].
  rewrite last_cons. destruct (last _); reflexivity.
Qed.

Lemma document_of_triple (u o t : string) :
  contains "|" u = false -> contains "|" o = false -> contains "|" t = false ->
  document_of_token (u +:+ "|" +:+ o +:+ "|" +:+ t) =
  {| url := Some u; targetPath := Some o; transformerPath := Some t |}.
Proof.
  intros Hu Ho Ht. unfold document_of_token.
  change (u +:+ "|" +:+ o +:+ "|" +:+ t)
    with (u +:+ String "|" (o +:+ String "|" t)).
  rewrite (split_first_piece _ _ _ Hu), (split_first_piece _ _ _ Ho), (split_without _ _ Ht).
  reflexivity.
Qed.

(** C9: the jobs of the configuration are the tokens that do not begin with
    two dashes, one job per token and in the order of the argument list,
    options in between being skipped; the fields of a job are the pieces of
    its token at the bar, in the order url, targetPath, transformerPath, so
    that a token [u|o|t] gives the job (u, o, t). *)
Theorem C9_parseArgs_jobs :
  (forall args : list string,
     documents (parseArgs args).1 =
     map document_of_token (List.filter is_job_token args)) /\
  (forall arg : string,
     document_of_token arg =
     {| url := split "|" arg !! 0%nat;
        targetPath := split "|" arg !! 1%nat;
        transformerPath := split "|" arg !! 2%nat |}) /\
  (forall u o t : string,
     contains "|" u = false -> contains "|" o = false -> contains "|" t = false ->
     document_of_token (u +:+ "|" +:+ o +:+ "|" +:+ t) =
     {| url := Some u; targetPath := Some o; transformerPath := Some t |}).
Proof.
  split; [|split].
  - intros args. unfold parseArgs. rewrite parseArgs_from_documents. reflexivity.
  - reflexivity.
  - apply document_of_triple.
Qed.

Lemma C9_parseArgs_jobs_witness :
  documents (parseArgs ["a|b|c"; "--parallel=false"; "--x"; "d|e|f"]).1 =
    [ {| url := Some "a"; targetPath := Some "b"; transformerPath := Some "c" |};
      {| url := Some "d"; targetPath := Some "e"; transformerPath := Some "f" |} ] /\
  document_of_token ("https://example.com/a" +:+ "|" +:+ "out/a.docx" +:+ "|" +:+ "./t.js") =
    {| url := Some "https://example.com/a";
       targetPath := Some "out/a.docx";
       transformerPath := Some "./t.js" |}.
Proof.
  split.
  - rewrite (proj1 C9_parseArgs_jobs). reflexivity.
  - apply (proj2 (proj2 C9_parseArgs_jobs)); reflexivity.
Defined.

Lemma option_parts_parallel_value (v : string) :
  contains "=" v = false ->
  option_parts ("--parallel=" +:+ v) = ["parallel"; v].
Proof.
  intros Hv. unfold option_parts.
  change ("--parallel=" +:+ v) with ("--" +:+ ("parallel" +:+ String "=" v)).
  rewrite (slice_prefix "--").
  rewrite split_first_piece by reflexivity.
  rewrite (split_without _ _ Hv). reflexivity.
Qed.

Lemma parseArg_invalid_parallel st (arg v : string) :
  startsWith "--" arg = true -> option_parts arg = ["parallel"; v] ->
  v <> "true" -> v <> "false" ->
  parseArg st arg =
  (st.1, st.2 ++ [(LWarn, "Invalid value for argument --parallel '" +:+ v +:+ "'")]).
Proof.
  intros Hopt Hparts Ht Hf. destruct st as [config console]. unfold parseArg.
  rewrite Hopt, Hparts. simpl.
  apply String.eqb_neq in Ht, Hf. rewrite Ht, Hf. reflexivity.
Qed.

(** C10: the flag of the configuration is the value of the last
    [--parallel] option whose value is valid (absent or [true] for true,
    [false] for false), and true when there is none; a [--parallel] option
    with any other value, such as [--parallel=v] for any other [v], adds a
    warning to the console and leaves both the flag and the jobs as they
    were. *)
Theorem C10_parallel_last_valid :
  (forall args : list string,
     parallel (parseArgs args).1 = default true (last (omap parallel_option args))) /\
  (parallel_option "--parallel" = Some true /\
   parallel_option "--parallel=true" = Some true /\
   parallel_option "--parallel=false" = Some false) /\
  (forall (args : list string) (arg v : string),
     startsWith "--" arg = true -> option_parts arg = ["parallel"; v] ->
     v <> "true" -> v <> "false" ->
     parallel_option arg = None /\
     parseArgs (args ++ [arg]) =
     ((parseArgs args).1,
      (parseArgs args).2
        ++ [(LWarn, "Invalid value for argument --parallel '" +:+ v +:+ "'")])) /\
  (forall v : string,
     contains "=" v = false ->
     startsWith "--" ("--parallel=" +:+ v) = true /\
     option_parts ("--parallel=" +:+ v) = ["parallel"; v]).
Proof.
  split; [|split; [|split]].
  - intros args. unfold parseArgs. rewrite parseArgs_from_parallel. reflexivity.
  - repeat split; reflexivity.
  - intros args arg v Hopt Hparts Ht Hf. split.
    + unfold parallel_option. rewrite Hopt, Hparts. simpl.
      repeat case_decide; simplify_eq; reflexivity.
    + unfold parseArgs. rewrite parseArgs_from_snoc.
      apply parseArg_invalid_parallel; assumption.
  - intros v Hv. split; [reflexivity|].
    apply option_parts_parallel_value, Hv.
Qed.

Lemma C10_parallel_last_valid_witness :
  parallel (parseArgs ["--parallel=false"; "u|o|t"; "--parallel=true"; "--parallel=maybe"]).1
    = true /\
  parseArgs (["--parallel=false"; "u|o|t"] ++ ["--parallel=maybe"]) =
    ((parseArgs ["--parallel=false"; "u|o|t"]).1,
     (parseArgs ["--parallel=false"; "u|o|t"]).2
       ++ [(LWarn, "Invalid value for argument --parallel '" +:+ "maybe" +:+ "'")]) /\
  option_parts ("--parallel=" +:+ "maybe") = ["parallel"; "maybe"].
Proof.
  split; [|split].
  - rewrite (proj1 C10_parallel_last_valid). reflexivity.
  - apply (proj1 (proj2 (proj2 C10_parallel_last_valid))
             ["--parallel=false"; "u|o|t"] "--parallel=maybe" "maybe");
      [reflexivity | reflexivity | discriminate | discriminate].
  - apply (proj2 (proj2 (proj2 C10_parallel_last_valid)) "maybe"). reflexivity.
Defined.

(** ** Fragment paths *)

Lemma lastIndexOf_lower (c : ascii) (s : string) : -1 <= lastIndexOf c s.
Proof.
  induction s as [|a s IH]; simpl; [lia|].
  destruct (Z.leb_spec 0 (lastIndexOf c s)); [lia|].
  destruct (Ascii.eqb a c); lia.
Qed.

Lemma lastIndexOf_upper (c : ascii) (s : string) :
  lastIndexOf c s < Z.of_nat (String.length s).
Proof.
  induction s as [|a s IH]; simpl String.length; simpl lastIndexOf; [lia|].
  destruct (Z.leb_spec 0 (lastIndexOf c s)); [lia|].
  destruct (Ascii.eqb a c); lia.
Qed.

Lemma lastIndexOf_absent (c : ascii) (s : string) :
  lastIndexOf c s < 0 -> contains c s = false.
Proof.
  induction s as [|a s IH]; simpl; [reflexivity|].
  destruct (Z.leb_spec 0 (lastIndexOf c s)) as [H|H].
  - pose proof (lastIndexOf_lower c s). lia.
  - destruct (Ascii.eqb a c); [lia|]. intros _. simpl. apply IH, H.
Qed.

Lemma lastIndexOf_present (c : ascii) (s : string) :
  0 <= lastIndexOf c s -> exists piece1 piece2 pieces, split c s = piece1 :: piece2 :: pieces.
Proof.
  induction s as [|a s IH]; simpl; [lia|].
  destruct (Z.leb_spec 0 (lastIndexOf c s)) as [H|H].
  - intros _. destruct (IH H) as (p1 & p2 & ps & ->).
    destruct (Ascii.eqb a c); eauto.
  - destruct (Ascii.eqb a c); [|lia]. intros _.
    pose proof (split_not_nil c s). destruct (split c s); [congruence|eauto].
Qed.

Lemma slice_within (n : Z) (s : string) :
  0 <= n <= Z.of_nat (String.length s) -> slice n s = drop_chars (Z.to_nat n) s.
Proof.
  intros H. unfold slice.
  destruct (Z.ltb_spec n 0); [lia|]. rewrite Z.min_l by lia. reflexivity.
Qed.

Lemma slice_after_last (c : ascii) (s : string) :
  slice (lastIndexOf c s + 1) s = default "" (last (split c s)).
Proof.
  pose proof (lastIndexOf_lower c s) as Hlo.
  pose proof (lastIndexOf_upper c s) as Hup.
  rewrite slice_within by lia. clear Hlo Hup.
  induction s as [|a s IH]; [reflexivity|].
  pose proof (lastIndexOf_lower c s) as Hlo.
  simpl lastIndexOf. simpl split.
  destruct (Z.leb_spec 0 (lastIndexOf c s)) as [H|H].
  - replace (Z.to_nat (lastIndexOf c s + 1 + 1)) with (S (Z.to_nat (lastIndexOf c s + 1))) by lia.
    simpl drop_chars. rewrite IH.
    destruct (lastIndexOf_present c s H) as (p1 & p2 & ps & ->).
    destruct (Ascii.eqb a c); reflexivity.
  - rewrite (split_without c s (lastIndexOf_absent c s H)).
    destruct (Ascii.eqb a c); reflexivity.
Qed.

Lemma split_pieces_clean (c : ascii) (s : string) :
  Forall (fun piece => contains c piece = false) (split c s).
Proof.
  induction s as [|a s IH]; simpl.
  - constructor; [reflexivity|constructor].
  - destruct (Ascii.eqb a c) eqn:E.
    + constructor; [reflexivity|exact IH].
    + destruct (split c s) as [|piece pieces]; inversion IH; subst.
      * constructor; [simpl; rewrite E; reflexivity|constructor].
      * constructor; [simpl; rewrite E; assumption|assumption].
Qed.

Lemma last_segment_clean (p : string) : contains "/" (last_segment p) = false.
Proof.
  unfold last_segment.
  pose proof (split_pieces_clean "/" p) as H.
  destruct (last (split "/" p)) as [seg|] eqn:E; [|reflexivity].
  simpl. rewrite Forall_forall in H. apply H.
  apply last_Some_elem_of, E.
Qed.

Section Fragments.

Context {Element Document Params : Type}.

Lemma rewritePath_join (dir path : string) :
  rewritePath (Some dir) path = Return (join_under dir (last_segment path)).
Proof.
  unfold rewritePath, join_under, last_segment.
  rewrite slice_after_last.
  destruct (endsWith "/" dir); reflexivity.
Qed.

Lemma mapO_rewrite (dir : string) (pairs : list (Element * string)) :
  mapO (fun item => bindO (rewritePath (Some dir) item.2)
                      (fun path' => Return (item.1, path'))) pairs =
  Return (map (fun item => (item.1, join_under dir (last_segment item.2))) pairs).
Proof.
  induction pairs as [|item pairs IH]; [reflexivity|].
  cbn [mapO]. rewrite IH. pose proof (rewritePath_join dir item.2) as ->. reflexivity.
Qed.

End Fragments.

(** C8: for a transformer that exposes [transform] only, the contract built
    for a job with output path [outputPath] returns, for every pair
    (element, path) of the transformer, the element with the path
    [outputPath], a slash unless [outputPath] already ends in one, and the
    final segment of [path] (what follows its last slash, itself free of
    slashes); so [a/b/c.png] becomes [out/dir/c.png] under [out/dir] and
    under [out/dir/] alike. *)
Theorem C8_fragment_paths :
  forall (Element Document Params : Type)
         (g : TransformArgs Document Params -> outcome (list (Element * string)))
         (outputPath : string) (args : TransformArgs Document Params)
         (pairs : list (Element * string)),
    g args = Return pairs ->
    (exists transform' : TransformArgs Document Params -> outcome (list (Element * string)),
        buildTransformConfig (Some outputPath)
          (Some {| transformDOM := None; transform := Some g |})
        = Return (FragmentConfig transform') /\
        transform' args =
        Return (map (fun item =>
                       (item.1,
                        outputPath +:+ (if endsWith "/" outputPath then "" else "/")
                                   +:+ last_segment item.2))
                    pairs)) /\
    (forall path : string,
        rewritePath (Some outputPath) path =
        Return (join_under outputPath (last_segment path)) /\
        contains "/" (last_segment path) = false) /\
    rewritePath (Some "out/dir") "a/b/c.png" = Return "out/dir/c.png" /\
    rewritePath (Some "out/dir/") "a/b/c.png" = Return "out/dir/c.png".
Proof.
  intros Element Document Params g outputPath args pairs Hg.
  split; [|split; [|split]].
  - eexists. split; [reflexivity|].
    cbv beta. rewrite Hg. cbn [bindO]. rewrite mapO_rewrite.
    f_equal. apply map_ext. intros [el p]. unfold join_under. cbn [fst snd].
    destruct (endsWith "/" outputPath); reflexivity.
  - intros path. split; [apply rewritePath_join | apply last_segment_clean].
  - reflexivity.
  - reflexivity.
Qed.

Lemma C8_fragment_paths_witness :
  exists transform' : TransformArgs unit unit -> outcome (list (nat * string)),
    buildTransformConfig (Some "out/dir/")
      (Some {| transformDOM := None;
               transform := Some (fun _ => Return [(1%nat, "a/b/c.png"); (2%nat, "d.png")]) |})
    = Return (FragmentConfig transform') /\
    transform' {| arg_url := "u"; arg_document := tt; arg_html := ""; arg_params := tt |} =
    Return [(1%nat, "out/dir/c.png"); (2%nat, "out/dir/d.png")].
Proof.
  destruct (C8_fragment_paths nat unit unit
              (fun _ => Return [(1%nat, "a/b/c.png"); (2%nat, "d.png")])
              "out/dir/"
              {| arg_url := "u"; arg_document := tt; arg_html := ""; arg_params := tt |}
              [(1%nat, "a/b/c.png"); (2%nat, "d.png")] eq_refl)
    as [[transform' [Hbuild Hrun]] _].
  exists transform'. split; [exact Hbuild|]. rewrite Hrun. reflexivity.
Defined.

(** ** Capability dispatch *)

(** C4, as amended: a contract is built exactly when the module exposes at
    least one capability.  A module with [transformDOM], with or without
    [transform], gets the DOM variant, which delegates to [transformDOM] and
    whose document path is the output path of the job; a module with
    [transform] only gets the fragment variant; a module with neither gets
    no contract, the dispatch throws. *)
Theorem C4_capability_dispatch :
  forall (Element Document Params : Type) (targetPath : option string)
         (t : Transformer Element Document Params),
    match transformDOM t, transform t with
    | Some f, _ =>
        buildTransformConfig targetPath (Some t) =
        Return (DOMConfig f (fun _ => targetPath))
    | None, Some g =>
        exists transform', buildTransformConfig targetPath (Some t) =
                           Return (FragmentConfig transform')
    | None, None =>
        exists e, buildTransformConfig targetPath (Some t) = Throw e
    end.
Proof.
  intros Element Document Params targetPath [[f|] [g|]]; simpl.
  - reflexivity.
  - reflexivity.
  - eexists. reflexivity.
  - eexists. reflexivity.
Qed.

(** C4, counterexample: a module that exposes both capabilities is not
    surfaced as an error; the DOM variant is built for it. *)
Lemma C4_both_capabilities_counterexample :
  let both : Transformer unit unit unit :=
    {| transformDOM := Some (fun _ => Return tt);
       transform := Some (fun _ => Return []) |} in
  (exists dom gen, buildTransformConfig (Some "out/a.docx") (Some both) =
                   Return (DOMConfig dom gen)) /\
  ~ (exists e, buildTransformConfig (Some "out/a.docx") (Some both) = Throw e).
Proof.
  split.
  - eexists. eexists. reflexivity.
  - intros [e He]. discriminate He.
Qed.

(** ** The retrying fetcher *)

Lemma delay_rejects (ms : Z) : delay ms = (Throw timer_error, []).
Proof. reflexivity. Qed.

Lemma retry_loop_first (pause : Z -> M unit) (fetch : Network) (url : string)
    (remaining : nat) (iter d : Z) (result : value) :
  retry_loop pause fetch url (S remaining) iter d result =
  match attempt pause fetch url iter d result with
  | (Return (Break, result'), out) => (Return result', out)
  | (Return (Continue, result'), out) =>
      let (o, out') := retry_loop pause fetch url remaining (iter + 1) d result' in
      (o, out ++ out')
  | (Throw e, out) => (Throw e, out)
  end.
Proof.
  simpl. unfold bind.
  destruct (attempt pause fetch url iter d result) as [[[[|] result']|e] out]; simpl.
  - reflexivity.
  - rewrite app_nil_r. reflexivity.
  - reflexivity.
Qed.

Lemma attempt_outcome (fetch : Network) (url : string) (iter d : Z) (result : value) :
  (attempt delay fetch url iter d result).1 =
  match body_of (fetch url (Z.to_nat iter)) with
  | Some t => Return (Break, VStr t)
  | None => Throw timer_error
  end.
Proof.
  unfold attempt, body_of. simpl.
  destruct (fetch url (Z.to_nat iter)) as [response|e]; simpl; [|reflexivity].
  destruct (status response =? 200); simpl; [|reflexivity].
  destruct (text response); reflexivity.
Qed.

Lemma attempt_lines (fetch : Network) (url : string) (iter d : Z) (result : value) :
  List.filter is_attempt_line (attempt delay fetch url iter d result).2 =
  [(LDebug, "Attempt " +:+ pretty iter +:+ " to fetch URL " +:+ url)].
Proof.
  unfold attempt. simpl.
  destruct (fetch url (Z.to_nat iter)) as [response|e]; simpl; [|reflexivity].
  destruct (status response =? 200); simpl; [|reflexivity].
  destruct (text response); reflexivity.
Qed.

(** The fetcher is decided by the first reply alone. *)
Lemma fetchAsTextWithRetry_outcome (fetch : Network) (url : string) (maxRetries d : Z) :
  (fetchAsTextWithRetry fetch url maxRetries d).1 =
  if maxRetries <=? 0 then Return VNull
  else match body_of (fetch url 0%nat) with
       | Some t => Return (VStr t)
       | None => Throw timer_error
       end.
Proof.
  unfold fetchAsTextWithRetry.
  destruct (Z.leb_spec maxRetries 0) as [H|H].
  - replace (Z.to_nat maxRetries) with 0%nat by lia. reflexivity.
  - destruct (Z.to_nat maxRetries) as [|remaining] eqn:E; [lia|].
    rewrite retry_loop_first.
    pose proof (attempt_outcome fetch url 0 d VNull) as Ho.
    destruct (attempt delay fetch url 0 d VNull) as [o out]. simpl in Ho. subst o.
    change (Z.to_nat 0) with 0%nat.
    destruct (body_of (fetch url 0%nat)); reflexivity.
Qed.

Lemma fetchAsTextWithRetry_lines (fetch : Network) (url : string) (maxRetries d : Z) :
  0 < maxRetries ->
  List.filter is_attempt_line (fetchAsTextWithRetry fetch url maxRetries d).2 =
  [(LDebug, "Attempt 0 to fetch URL " +:+ url)].
Proof.
  intros H. unfold fetchAsTextWithRetry.
  destruct (Z.to_nat maxRetries) as [|remaining] eqn:E; [lia|].
  rewrite retry_loop_first.
  pose proof (attempt_outcome fetch url 0 d VNull) as Ho.
  pose proof (attempt_lines fetch url 0 d VNull) as Hl.
  destruct (attempt delay fetch url 0 d VNull) as [o out]. simpl in Ho, Hl. subst o.
  destruct (body_of (fetch url (Z.to_nat 0))); exact Hl.
Qed.

(** C3: [delay] rejects for every [ms], because [setTimeout] receives the
    number where its callback belongs; hence a first attempt that fails, by
    a network error or a status other than 200, makes the fetcher reject
    after that single attempt, and the fetcher returns a text only when the
    first attempt has status 200. *)
Theorem C3_delay_rejects_so_no_retry :
  (forall (ms : Z) (resolve : value),
     setTimeout (VNum ms) resolve = Throw timer_error /\
     delay ms = (Throw timer_error, [])) /\
  (forall (fetch : Network) (url : string) (maxRetries d : Z),
     0 < maxRetries ->
     (exists e, fetch url 0%nat = Throw e) \/
     (exists response, fetch url 0%nat = Return response /\ status response <> 200) ->
     (fetchAsTextWithRetry fetch url maxRetries d).1 = Throw timer_error /\
     List.filter is_attempt_line (fetchAsTextWithRetry fetch url maxRetries d).2 =
     [(LDebug, "Attempt 0 to fetch URL " +:+ url)]) /\
  (forall (fetch : Network) (url : string) (maxRetries d : Z) (t : string),
     (fetchAsTextWithRetry fetch url maxRetries d).1 = Return (VStr t) ->
     0 < maxRetries /\
     exists response, fetch url 0%nat = Return response /\
                      status response = 200 /\ text response = Return t).
Proof.
  split; [|split].
  - intros ms resolve. split; reflexivity.
  - intros fetch url maxRetries d Hpos Hfail. split.
    + rewrite fetchAsTextWithRetry_outcome.
      destruct (Z.leb_spec maxRetries 0); [lia|].
      destruct Hfail as [[e ->]|[response [-> Hstatus]]]; simpl; [reflexivity|].
      apply Z.eqb_neq in Hstatus. rewrite Hstatus. reflexivity.
    + apply fetchAsTextWithRetry_lines, Hpos.
  - intros fetch url maxRetries d t. rewrite fetchAsTextWithRetry_outcome.
    destruct (Z.leb_spec maxRetries 0); [discriminate|].
    unfold body_of.
    destruct (fetch url 0%nat) as [response|e]; [|discriminate].
    destruct (Z.eqb_spec (status response) 200) as [Hs|Hs]; [|discriminate].
    destruct (text response) as [t'|e] eqn:Ht; [|discriminate].
    intros [= ->]. split; [lia|]. exists response. repeat split; assumption.
Qed.

Lemma C3_delay_rejects_so_no_retry_witness :
  (fetchAsTextWithRetry recovering "https://example.com/a" 3 250).1 = Throw timer_error /\
  (0 < 3 /\
   exists response, (fun _ _ => Return page) "https://example.com/a" 0%nat = Return response /\
                    status response = 200 /\ text response = Return "<html></html>").
Proof.
  split.
  - apply (proj1 (proj2 C3_delay_rejects_so_no_retry)
             recovering "https://example.com/a" 3 250).
    + lia.
    + right. exists unavailable. split; [reflexivity | discriminate].
  - apply (proj2 (proj2 C3_delay_rejects_so_no_retry)
             (fun _ _ => Return page) "https://example.com/a" 3 250 "<html></html>").
    reflexivity.
Defined.

Section ResolvingPause.

(** The loop under a pause that resolves, as a [setTimeout(resolve, ms)]
    would make it. *)
Variable pause : Z -> M unit.
Hypothesis pause_resolves : forall ms, (pause ms).1 = Return tt.

Lemma attempt_with_pause (fetch : Network) (url : string) (iter d : Z) (result : value) :
  (attempt pause fetch url iter d result).1 =
  match body_of (fetch url (Z.to_nat iter)) with
  | Some t => Return (Break, VStr t)
  | None => Return (Continue, result)
  end.
Proof.
  unfold attempt, body_of. simpl.
  pose proof (pause_resolves d) as Hp.
  destruct (pause d) as [o out]. simpl in Hp. subst o.
  destruct (fetch url (Z.to_nat iter)) as [response|e]; simpl; [|reflexivity].
  destruct (status response =? 200); simpl; [|reflexivity].
  destruct (text response); reflexivity.
Qed.

Lemma retry_loop_with_pause (fetch : Network) (url : string) (d : Z) (n : nat) :
  forall (iter : Z) (result : value),
    0 <= iter ->
    (retry_loop pause fetch url n iter d result).1 =
    Return (match first_body fetch url (Z.to_nat iter) n with
            | Some t => VStr t
            | None => result
            end).
Proof.
  induction n as [|n IH]; intros iter result Hiter; [reflexivity|].
  rewrite retry_loop_first.
  pose proof (attempt_with_pause fetch url iter d result) as Ho.
  destruct (attempt pause fetch url iter d result) as [o out]. simpl in Ho. subst o.
  simpl first_body.
  destruct (body_of (fetch url (Z.to_nat iter))) as [t|]; [reflexivity|].
  specialize (IH (iter + 1) result ltac:(lia)).
  replace (Z.to_nat (iter + 1)) with (S (Z.to_nat iter)) in IH by lia.
  destruct (retry_loop pause fetch url n (iter + 1) d result) as [o' out'].
  exact IH.
Qed.

End ResolvingPause.

(** C2, on the code: with a server that answers 503 and then 200, the
    second of three attempts would succeed, yet the fetcher rejects after
    the first; and when every attempt fails it rejects as well, where the
    claim has [null].  The loop itself retries as the claim says once the
    pause resolves ([retry_loop_with_pause]); the rejection comes from
    [delay]. *)
Theorem C2_first_failure_rejects :
  first_body recovering "https://example.com/a" 0 3 = Some "<html></html>" /\
  (fetchAsTextWithRetry recovering "https://example.com/a" 3 250).1 = Throw timer_error /\
  first_body (fun _ _ => Return unavailable) "https://example.com/a" 0 3 = None /\
  (fetchAsTextWithRetry (fun _ _ => Return unavailable) "https://example.com/a" 3 250).1
  = Throw timer_error.
Proof. repeat split; reflexivity. Qed.

(** ** Failure records *)

Lemma bind_outcome {A B} (m : M A) (k : A -> M B) :
  (bind m k).1 = match m.1 with
                 | Return a => (k a).1
                 | Throw e => Throw e
                 end.
Proof.
  destruct m as [[a|e] out]; simpl; [|reflexivity].
  destruct (k a); reflexivity.
Qed.

Lemma try_catch_outcome {A} (body : M A) (handler : value -> M A) :
  (try_catch body handler).1 = match body.1 with
                               | Return a => Return a
                               | Throw e => (handler e).1
                               end.
Proof.
  destruct body as [[a|e] out]; simpl; [reflexivity|].
  destruct (handler e); reflexivity.
Qed.

(** Unfolding the outcome of the outermost [bind] or [try_catch]. *)
Ltac outcome_step :=
  match goal with
  | |- context [fst (bind ?m ?k)] => rewrite (bind_outcome m k)
  | |- context [fst (try_catch ?b ?h)] => rewrite (try_catch_outcome b h)
  end.

Lemma importFailure_throws (reason : string) (error : value) :
  importFailure reason error = Throw (unbound (if truthy error then "e" else "doc")).
Proof. unfold importFailure. destruct (truthy error); reflexivity. Qed.

Lemma throw_importFailure {A} (reason : string) (error : value) :
  (throw_result (A := A) (importFailure reason error)).1 =
  Throw (unbound (if truthy error then "e" else "doc")).
Proof. rewrite importFailure_throws. reflexivity. Qed.

Lemma unbound_raised (b : bool) : raised_by_language (unbound (if b then "e" else "doc")).
Proof. destruct b; [left | right; left]; reflexivity. Qed.

Lemma guarded_outcome {A} (body : M A) (reason : string) :
  match (try_catch body (fun e => throw_result (importFailure reason e))).1 with
  | Return a => body.1 = Return a
  | Throw e => raised_by_language e
  end.
Proof.
  rewrite try_catch_outcome. destruct body.1 as [a|e]; [reflexivity|].
  rewrite throw_importFailure. apply unbound_raised.
Qed.

(** Case analysis on a guarded stage of the pipeline. *)
Ltac guard_step :=
  match goal with
  | |- context [fst (try_catch ?b (fun e => throw_result (importFailure ?r e)))] =>
      let H := fresh "Hguard" in
      pose proof (guarded_outcome b r) as H;
      destruct (fst (try_catch b (fun e => throw_result (importFailure r e))))
  end.

Ltac raised :=
  first [ apply unbound_raised
        | left; reflexivity
        | right; left; reflexivity
        | right; right; eexists; reflexivity ].

Section PipelineFailures.

Context {Element Document Params : Type}.
Variable fetch : Network.
Variable host : Host Element Document Params.

Lemma buildTransformConfig_throws (targetPath : option string)
    (transformer : option (Transformer Element Document Params)) (e : value) :
  buildTransformConfig targetPath transformer = Throw e -> raised_by_language e.
Proof.
  unfold buildTransformConfig.
  destruct transformer as [t|].
  - destruct (transformDOM t); [discriminate|].
    destruct (transform t); [discriminate|].
    rewrite importFailure_throws. simpl. intros [= <-]. right. left. reflexivity.
  - intros [= <-]. right. right. eexists. reflexivity.
Qed.

Lemma importDocument_throws (doc : ImportDocument) (e : value) :
  (importDocument fetch host doc).1 = Throw e -> raised_by_language e.
Proof.
  unfold importDocument.
  outcome_step. simpl (log _ _).1. cbv iota.
  outcome_step. rewrite fetchAsTextWithRetry_outcome.
  change (3 <=? 0) with false. cbv iota.
  destruct (body_of _) as [t|]; [|intros [= <-]; raised].
  outcome_step.
  destruct (negb (truthy (VStr t))).
  { rewrite throw_importFailure. intros [= <-]. raised. }
  simpl (ret tt).1. cbv iota.
  outcome_step. guard_step; [|intros [= <-]; assumption].
  outcome_step. simpl (lift _).1.
  destruct (buildTransformConfig _ _) as [config|e2] eqn:Hbuild.
  2:{ intros [= <-]. eapply buildTransformConfig_throws, Hbuild. }
  outcome_step. guard_step; [|intros [= <-]; assumption].
  outcome_step. guard_step; [|intros [= <-]; assumption].
  outcome_step. simpl. discriminate.
Qed.

End PipelineFailures.

(** C1, on the code: [importFailure] never returns a record, it raises a
    [ReferenceError] for [e] or for [doc]; so no run of the pipeline rejects
    with an [ImportFailure], whatever stage fails.  For the job [job_a] whose
    transformer cannot be loaded, the pipeline rejects with the
    [ReferenceError] for [e] where the claim has the record of the job with
    the reason and the indented loader error. *)
Theorem C1_failure_value_is_not_a_record :
  (forall (reason : string) (error : value),
     importFailure reason error =
     Throw (unbound (if truthy error then "e" else "doc"))) /\
  (forall (Element Document Params : Type) (fetch : Network)
          (host : Host Element Document Params) (doc : ImportDocument)
          (document : value) (reason : string),
     (importDocument fetch host doc).1 <> Throw (VFailure document reason)) /\
  (importDocument serving no_module job_a).1 = Throw (unbound "e").
Proof.
  split; [|split].
  - apply importFailure_throws.
  - intros Element Document Params fetch host doc document reason H.
    apply importDocument_throws in H.
    destruct H as [H|[H|[message H]]]; discriminate H.
  - reflexivity.
Qed.

(** ** The batch runner *)

Section Settling.

Context {A : Type}.
Variable promises : list (outcome A).

Lemma fill_slot_length values i :
  length (fill_slot promises values i) = length values.
Proof.
  unfold fill_slot. destruct (promises !! i); [apply length_insert|reflexivity].
Qed.

(** A slot holds the settlement of its own promise once the promise has
    settled, and is untouched before. *)
Lemma fill_slots_lookup schedule : forall values j,
  length values = length promises ->
  foldl (fill_slot promises) values schedule !! j =
  if decide (j ∈ schedule)
  then (fun o => Some (settle o)) <$> promises !! j
  else values !! j.
Proof.
  induction schedule as [|i schedule IH]; intros values j Hlen.
  - destruct (decide (j ∈ [])) as [H|_]; [inversion H|reflexivity].
  - simpl. rewrite IH by (rewrite fill_slot_length; exact Hlen).
    destruct (decide (j ∈ schedule)) as [Hin|Hout].
    + rewrite decide_True by (right; exact Hin). reflexivity.
    + destruct (decide (j = i)) as [->|Hne].
      * rewrite decide_True by left. unfold fill_slot.
        destruct (promises !! i) as [o|] eqn:Ho; simpl.
        -- apply list_lookup_insert_eq. rewrite Hlen.
           apply lookup_lt_Some in Ho. exact Ho.
        -- apply lookup_ge_None. rewrite Hlen. apply lookup_ge_None, Ho.
      * rewrite decide_False by (intros Hin; inversion Hin; subst; contradiction).
        unfold fill_slot. destruct (promises !! i); [|reflexivity].
        apply list_lookup_insert_ne. congruence.
Qed.

(** When every promise has settled, the array arrives, in the order of
    the promises. *)
Lemma allSettled_complete schedule :
  (forall i, (i < length promises)%nat -> i ∈ schedule) ->
  allSettled promises schedule = Some (map settle promises).
Proof.
  intros Hall. unfold allSettled.
  replace (foldl _ _ schedule) with (Some <$> (settle <$> promises)).
  - apply mapM_fmap_Some. reflexivity.
  - apply list_eq. intros j.
    rewrite fill_slots_lookup by apply length_replicate.
    rewrite !list_lookup_fmap.
    destruct (promises !! j) as [o|] eqn:Ho; simpl.
    + rewrite decide_True; [reflexivity|].
      apply Hall. apply lookup_lt_Some in Ho. exact Ho.
    + case_decide; [reflexivity|].
      symmetry. apply lookup_ge_None. rewrite length_replicate.
      apply lookup_ge_None, Ho.
Qed.


End Settling.

Lemma schedule_covers (n : nat) (schedule : list nat) :
  Permutation schedule (seq 0 n) -> forall i, (i < n)%nat -> i ∈ schedule.
Proof.
  intros Hperm i Hi. rewrite Hperm. apply elem_of_seq. lia.
Qed.

Section BatchFacts.

Context {R : Type}.
Variable run : ImportDocument -> outcome R.

Lemma rejections_in_list_order (docs : list ImportDocument) :
  omap rejection (map settle (map (fun doc => (doc, run doc)) docs).*2) =
  failures_in_list_order run docs.
Proof.
  induction docs as [|doc docs IH]; [reflexivity|].
  unfold failures_in_list_order in *. cbn in *. rewrite <- IH.
  destruct (run doc); reflexivity.
Qed.

Lemma launched_jobs (docs : list ImportDocument) :
  (map (fun doc => (doc, run doc)) docs).*1 = docs.
Proof.
  induction docs as [|doc docs IH]; [reflexivity|].
  cbn in *. rewrite IH. reflexivity.
Qed.

Lemma launched_length (docs : list ImportDocument) :
  length (map (fun doc => (doc, run doc)) docs).*2 = length docs.
Proof. rewrite length_fmap, length_map. reflexivity. Qed.

Lemma runParallel_settled (docs : list ImportDocument) (schedule : list nat) :
  Permutation schedule (seq 0 (length docs)) ->
  runParallel run docs schedule =
  Some {| attempted := docs; failures := failures_in_list_order run docs |}.
Proof.
  intros Hperm. unfold runParallel.
  rewrite allSettled_complete.
  - rewrite rejections_in_list_order, launched_jobs. reflexivity.
  - rewrite launched_length. apply schedule_covers, Hperm.
Qed.


Lemma failures_count (docs : list ImportDocument) :
  length (failures_in_list_order run docs) = length (List.filter (fails run) docs).
Proof.
  induction docs as [|doc docs IH]; [reflexivity|].
  unfold failures_in_list_order, fails in *. cbn in *.
  destruct (run doc); cbn; rewrite IH; reflexivity.
Qed.

Lemma runSequential_from (docs : list ImportDocument) : forall acc,
  foldl (runNext run) acc docs =
  {| attempted := attempted acc ++ docs;
     failures := failures acc ++ failures_in_list_order run docs |}.
Proof.
  induction docs as [|doc docs IH]; intros acc.
  - simpl. rewrite !app_nil_r. destruct acc; reflexivity.
  - simpl. rewrite IH. unfold runNext, failures_in_list_order. simpl.
    destruct (run doc); simpl; rewrite <- !app_assoc; reflexivity.
Qed.

Lemma runSequential_all (docs : list ImportDocument) :
  runSequential run docs =
  {| attempted := docs; failures := failures_in_list_order run docs |}.
Proof. unfold runSequential. rewrite runSequential_from. reflexivity. Qed.

End BatchFacts.




(** C5, as amended: in parallel mode the failures are listed in the order
    of the job list, whatever the order in which the jobs settle. *)
Theorem C5_parallel_failures_in_list_order :
  forall (R : Type) (run : ImportDocument -> outcome R)
         (docs : list ImportDocument) (schedule : list nat),
    Permutation schedule (seq 0 (length docs)) ->
    failures <$> runParallel run docs schedule = Some (failures_in_list_order run docs) /\
    forall schedule' : list nat,
      Permutation schedule' (seq 0 (length docs)) ->
      runParallel run docs schedule' = runParallel run docs schedule.
Proof.
  intros R run docs schedule Hperm. split.
  - rewrite (runParallel_settled run _ _ Hperm). reflexivity.
  - intros schedule' Hperm'.
    rewrite (runParallel_settled run _ _ Hperm), (runParallel_settled run _ _ Hperm').
    reflexivity.
Qed.

Lemma C5_parallel_failures_in_list_order_witness :
  failures <$> runParallel (fun doc => (importDocument a_down no_module doc).1)
                 [job_a; job_b] [1; 0]%nat
  = Some [timer_error; unbound "e"].
Proof.
  rewrite (proj1 (C5_parallel_failures_in_list_order _
                    (fun doc => (importDocument a_down no_module doc).1)
                    [job_a; job_b] [1; 0]%nat (perm_swap 0%nat 1%nat []))).
  reflexivity.
Defined.

(** C5, counterexample: [job_b] settles before [job_a] and both fail; the
    order of settlement puts the failure of [job_b] first, the failure list
    has the failure of [job_a] first. *)
Lemma C5_settlement_order_counterexample :
  let run := fun doc => (importDocument a_down no_module doc).1 in
  failures_in_settlement_order run [job_a; job_b] [1; 0]%nat
    = [unbound "e"; timer_error] /\
  failures <$> runParallel run [job_a; job_b] [1; 0]%nat
    = Some [timer_error; unbound "e"] /\
  failures <$> runParallel run [job_a; job_b] [1; 0]%nat
    <> Some (failures_in_settlement_order run [job_a; job_b] [1; 0]%nat).
Proof.
  split; [reflexivity|]. split; [reflexivity|]. discriminate.
Qed.





(** * Further properties of the code *)

(** ** [indent] (lines 106-110) *)

Lemma contains_append (c : ascii) (s t : string) :
  contains c (s +:+ t) = contains c s || contains c t.
Proof.
  induction s as [|a s IH]; [reflexivity|].
  rewrite append_cons. simpl. rewrite IH. apply orb_assoc.
Qed.

Lemma repeat_spaces_clean (n : nat) : contains "010" (JsString.repeat " " n) = false.
Proof. induction n as [|n IH]; [reflexivity|]. simpl. exact IH. Qed.

Lemma append_assoc (s t u : string) : (s +:+ t) +:+ u = s +:+ (t +:+ u).
Proof.
  induction s as [|a s IH]; [reflexivity|].
  rewrite !append_cons, IH. reflexivity.
Qed.

Lemma repeat_plus (s : string) (m n : nat) :
  JsString.repeat s (m + n) = JsString.repeat s m +:+ JsString.repeat s n.
Proof.
  induction m as [|m IH]; [reflexivity|].
  simpl JsString.repeat. rewrite IH, append_assoc. reflexivity.
Qed.

Lemma join_cons2 (sep p q : string) (rest : list string) :
  join sep (p :: q :: rest) = p +:+ sep +:+ join sep (q :: rest).
Proof. reflexivity. Qed.

(** Splitting what was joined gives the pieces back. *)
Lemma split_join (c : ascii) (pieces : list string) :
  pieces <> [] ->
  Forall (fun piece => contains c piece = false) pieces ->
  split c (join (String c "") pieces) = pieces.
Proof.
  induction pieces as [|p [|q rest] IH]; intros Hne Hclean; [congruence| |].
  - inversion Hclean; subst. apply split_without. assumption.
  - inversion Hclean as [|? ? Hp Hrest]; subst.
    rewrite join_cons2.
    change (p +:+ String c "" +:+ join (String c "") (q :: rest))
      with (p +:+ String c (join (String c "") (q :: rest))).
    rewrite (split_first_piece _ _ _ Hp), IH; [reflexivity|discriminate|assumption].
Qed.

(** Joining what was split gives the string back. *)
Lemma join_split (c : ascii) (s : string) : join (String c "") (split c s) = s.
Proof.
  induction s as [|a s IH]; [reflexivity|].
  simpl split. pose proof (split_not_nil c s) as Hne.
  destruct (Ascii.eqb_spec a c) as [->|Hac].
  - destruct (split c s) as [|p ps]; [congruence|].
    rewrite join_cons2, IH. reflexivity.
  - destruct (split c s) as [|p [|q ps]]; [congruence| |].
    + simpl in *. rewrite IH. reflexivity.
    + rewrite join_cons2. rewrite join_cons2 in IH.
      rewrite append_cons, IH. reflexivity.
Qed.

Lemma indent_by_unfold (n : nat) (text : string) :
  indent_by n text =
  join (String "010" "") (map (fun line => JsString.repeat " " n +:+ line) (split "010" text)).
Proof. reflexivity. Qed.

Lemma indent_by_split (n : nat) (text : string) :
  split "010" (indent_by n text) =
  map (fun line => JsString.repeat " " n +:+ line) (split "010" text).
Proof.
  rewrite indent_by_unfold. apply split_join.
  - pose proof (split_not_nil "010" text).
    destruct (split "010" text); [congruence|discriminate].
  - apply Forall_map. eapply Forall_impl; [apply split_pieces_clean|].
    intros line Hline. simpl. rewrite contains_append, repeat_spaces_clean, Hline.
    reflexivity.
Qed.

(** X1: indenting keeps the lines of the text, empty ones included, and puts
    exactly [indentSize] spaces before each; a text without a line break
    becomes the spaces followed by the text. *)
Theorem indent_lines :
  (forall (n : nat) (text : string),
     split "010" (indent_by n text) =
     map (fun line => JsString.repeat " " n +:+ line) (split "010" text)) /\
  (forall (n : nat) (text : string),
     contains "010" text = false ->
     indent_by n text = JsString.repeat " " n +:+ text).
Proof.
  split.
  - apply indent_by_split.
  - intros n text Htext. rewrite indent_by_unfold, (split_without _ _ Htext).
    reflexivity.
Qed.

Lemma indent_lines_witness :
  indent_by 4 "Error: boom" = JsString.repeat " " 4 +:+ "Error: boom".
Proof. apply (proj2 indent_lines). reflexivity. Defined.

(** X2: indenting by nothing returns the text, and indenting twice is
    indenting once by the sum, so that a reason indented inside an indented
    report line stands eight spaces in. *)
Theorem indent_compose :
  (forall text : string, indent_by 0 text = text) /\
  (forall (m n : nat) (text : string),
     indent_by m (indent_by n text) = indent_by (m + n) text) /\
  (forall text : string, indent (indent text) = indent_by 8 text).
Proof.
  assert (Hzero : forall text : string, indent_by 0 text = text).
  { intros text. rewrite indent_by_unfold.
    rewrite (map_ext _ (fun line => line)) by reflexivity.
    rewrite map_id. apply join_split. }
  assert (Hsum : forall (m n : nat) (text : string),
             indent_by m (indent_by n text) = indent_by (m + n) text).
  { intros m n text. rewrite (indent_by_unfold m), indent_by_split.
    rewrite map_map, indent_by_unfold. f_equal. apply map_ext. intros line.
    rewrite repeat_plus, append_assoc. reflexivity. }
  split; [exact Hzero|]. split; [exact Hsum|].
  intros text. apply (Hsum 4%nat 4%nat).
Qed.

Lemma length_repeat_spaces (n : nat) : String.length (JsString.repeat " " n) = n.
Proof. induction n as [|n IH]; [reflexivity|]. simpl. f_equal. exact IH. Qed.

Lemma length_join_prefixed (sep prefix : string) (pieces : list string) :
  pieces <> [] ->
  String.length (join sep (map (fun piece => prefix +:+ piece) pieces)) =
  (String.length (join sep pieces) + String.length prefix * length pieces)%nat.
Proof.
  induction pieces as [|p [|q rest] IH]; intros Hne; [congruence| |].
  - simpl. rewrite length_append. lia.
  - change (map (fun piece => prefix +:+ piece) (p :: q :: rest))
      with ((prefix +:+ p) :: (prefix +:+ q)
              :: map (fun piece => prefix +:+ piece) rest).
    rewrite !join_cons2.
    change ((prefix +:+ q) :: map (fun piece => prefix +:+ piece) rest)
      with (map (fun piece => prefix +:+ piece) (q :: rest)).
    rewrite !length_append, IH by discriminate.
    simpl length. lia.
Qed.

(** X3: indenting lengthens the text by [indentSize] characters per line. *)
Theorem indent_length :
  forall (n : nat) (text : string),
    String.length (indent_by n text) =
    (String.length text + n * length (split "010" text))%nat.
Proof.
  intros n text. rewrite indent_by_unfold, length_join_prefixed.
  - rewrite join_split, length_repeat_spaces. reflexivity.
  - apply split_not_nil.
Qed.

(** ** [parseArgs] (lines 26-64) *)

(** The warnings of a token do not depend on what was parsed before. *)
Lemma parseArg_console st arg :
  (parseArg st arg).2 = st.2 ++ (parseArg (initial_config, []) arg).2.
Proof.
  destruct st as [config console]. unfold parseArg.
  destruct (startsWith "--" arg); simpl; [|symmetry; apply app_nil_r].
  destruct (decide _); [|reflexivity].
  destruct (option_parts arg !! 1%nat) as [v|]; simpl; [|symmetry; apply app_nil_r].
  destruct (String.eqb v "true"); simpl; [symmetry; apply app_nil_r|].
  destruct (String.eqb v "false"); simpl; [symmetry; apply app_nil_r|].
  reflexivity.
Qed.

Lemma parseArg_warns arg :
  if is_invalid_option arg
  then exists message : string,
         (parseArg (initial_config, []) arg).2 = [(LWarn, message)]
  else (parseArg (initial_config, []) arg).2 = [].
Proof.
  unfold parseArg, is_invalid_option, parallel_option.
  destruct (startsWith "--" arg); simpl; [|reflexivity].
  pose proof (option_parts_shape arg) as Hshape.
  destruct (option_parts arg) as [|name [|v [|w rest]]]; simpl.
  - destruct Hshape as [[? H]|[? [? H]]]; discriminate H.
  - repeat case_decide; simplify_eq; simpl; try reflexivity; eexists; reflexivity.
  - destruct (String.eqb_spec v "true") as [->|Ht];
      [repeat case_decide; simplify_eq; simpl; try reflexivity; eexists; reflexivity|].
    destruct (String.eqb_spec v "false") as [->|Hf];
      repeat case_decide; simplify_eq; simpl; try reflexivity; eexists; reflexivity.
  - destruct Hshape as [[? H]|[? [? H]]]; discriminate H.
Qed.

Lemma parseArgs_from_console args : forall st,
  (parseArgs_from st args).2 = st.2 ++ (parseArgs_from (initial_config, []) args).2.
Proof.
  induction args as [|arg args IH]; intros st.
  - simpl. rewrite app_nil_r. reflexivity.
  - rewrite !parseArgs_from_cons, IH, parseArg_console.
    rewrite (IH (parseArg _ arg)), app_assoc. reflexivity.
Qed.

Lemma parseArgs_from_app st args args' :
  parseArgs_from st (args ++ args') = parseArgs_from (parseArgs_from st args) args'.
Proof. unfold parseArgs_from. apply foldl_app. Qed.

(** X4: parsing two argument lists one after the other: the jobs and the
    warnings of the whole are those of the first list followed by those of
    the second, and the flag is the last valid one of the second list, or
    else the flag of the first. *)
Theorem parseArgs_concatenation :
  forall args args' : list string,
    documents (parseArgs (args ++ args')).1 =
      documents (parseArgs args).1 ++ documents (parseArgs args').1 /\
    (parseArgs (args ++ args')).2 = (parseArgs args).2 ++ (parseArgs args').2 /\
    parallel (parseArgs (args ++ args')).1 =
      default (parallel (parseArgs args).1) (last (omap parallel_option args')).
Proof.
  intros args args'. unfold parseArgs. rewrite parseArgs_from_app.
  split; [|split].
  - rewrite !parseArgs_from_documents. reflexivity.
  - apply parseArgs_from_console.
  - apply parseArgs_from_parallel.
Qed.

Lemma parseArgs_console_shape args :
  Forall (fun line : level * string => line.1 = LWarn)
    (parseArgs_from (initial_config, []) args).2 /\
  length (parseArgs_from (initial_config, []) args).2 =
  length (List.filter is_invalid_option args).
Proof.
  induction args as [|arg args [IHw IHn]]; [split; [constructor|reflexivity]|].
  rewrite parseArgs_from_cons, parseArgs_from_console.
  pose proof (parseArg_warns arg) as Hwarn.
  simpl List.filter. destruct (is_invalid_option arg).
  - destruct Hwarn as [message ->]. simpl.
    split; [constructor; [reflexivity|exact IHw]|]. rewrite IHn. reflexivity.
  - rewrite Hwarn. split; assumption.
Qed.

(** X5: the parser prints warnings only, one for each option token that
    sets nothing; job tokens and valid options print nothing. *)
Theorem parseArgs_warnings :
  forall args : list string,
    Forall (fun line : level * string => line.1 = LWarn) (parseArgs args).2 /\
    length (parseArgs args).2 = length (List.filter is_invalid_option args).
Proof. intros args. apply parseArgs_console_shape. Qed.

(** X6: an option whose name is not [parallel], compared by case, adds the
    warning that names it and leaves the jobs and the flag as they were;
    [--name] and [--name=v] are such options for any other [name] free of
    the equals sign. *)
Theorem parseArgs_unknown_option :
  (forall (args : list string) (arg name : string),
     startsWith "--" arg = true ->
     option_parts arg !! 0%nat = Some name ->
     name <> "parallel" ->
     parseArgs (args ++ [arg]) =
     ((parseArgs args).1,
      (parseArgs args).2 ++ [(LWarn, "Invalid argument name '" +:+ name +:+ "'")])) /\
  (forall name v : string,
     contains "=" name = false ->
     option_parts ("--" +:+ name) !! 0%nat = Some name /\
     option_parts ("--" +:+ name +:+ "=" +:+ v) !! 0%nat = Some name).
Proof.
  split.
  - intros args arg name Hopt Hname Hne.
    unfold parseArgs. rewrite parseArgs_from_snoc.
    destruct (parseArgs_from (initial_config, []) args) as [config console].
    unfold parseArg. rewrite Hopt, Hname.
    rewrite decide_False by congruence. reflexivity.
  - intros name v Hname. unfold option_parts. split.
    + rewrite (slice_prefix "--"), (split_without _ _ Hname). reflexivity.
    + rewrite (slice_prefix "--").
      change (name +:+ "=" +:+ v) with (name +:+ String "=" v).
      rewrite (split_first_piece _ _ _ Hname).
      destruct (split "=" v); reflexivity.
Qed.

Lemma parseArgs_unknown_option_witness :
  parseArgs (["u|o|t"] ++ ["--Parallel=false"]) =
  ((parseArgs ["u|o|t"]).1,
   (parseArgs ["u|o|t"]).2 ++ [(LWarn, "Invalid argument name '" +:+ "Parallel" +:+ "'")]) /\
  option_parts ("--" +:+ "Parallel" +:+ "=" +:+ "false") !! 0%nat = Some "Parallel".
Proof.
  split.
  - apply (proj1 parseArgs_unknown_option ["u|o|t"] "--Parallel=false" "Parallel");
      [reflexivity | reflexivity | discriminate].
  - apply (proj2 parseArgs_unknown_option "Parallel" "false"). reflexivity.
Defined.

Lemma split_with (c : ascii) (s : string) :
  contains c s = true -> exists p q rest, split c s = p :: q :: rest.
Proof.
  induction s as [|a s IH]; simpl; [discriminate|].
  pose proof (split_not_nil c s) as Hne.
  destruct (Ascii.eqb a c); simpl.
  - intros _. destruct (split c s); [congruence|eauto].
  - intros H. destruct (IH H) as (p & q & rest & ->). eauto.
Qed.

(** X7: a job always has a url, the text of the token before its first bar;
    the output path is missing exactly when the token has no bar, in which
    case the whole token is the url and the transformer is missing as well;
    and anything after a third bar is dropped. *)
Theorem document_of_token_fields :
  (forall arg : string,
     exists u, url (document_of_token arg) = Some u /\ contains "|" u = false) /\
  (forall arg : string,
     targetPath (document_of_token arg) = None <-> contains "|" arg = false) /\
  (forall arg : string,
     contains "|" arg = false ->
     document_of_token arg =
     {| url := Some arg; targetPath := None; transformerPath := None |}) /\
  (forall u o t extra : string,
     contains "|" u = false -> contains "|" o = false -> contains "|" t = false ->
     document_of_token (u +:+ "|" +:+ o +:+ "|" +:+ t +:+ "|" +:+ extra) =
     {| url := Some u; targetPath := Some o; transformerPath := Some t |}).
Proof.
  split; [|split; [|split]].
  - intros arg. unfold document_of_token. simpl.
    pose proof (split_not_nil "|" arg) as Hne.
    pose proof (split_pieces_clean "|" arg) as Hclean.
    destruct (split "|" arg) as [|u rest]; [congruence|].
    exists u. split; [reflexivity|]. inversion Hclean; assumption.
  - intros arg. unfold document_of_token. simpl. split.
    + intros Hnone. destruct (contains "|" arg) eqn:E; [|reflexivity].
      destruct (split_with _ _ E) as (p & q & rest & Hsplit).
      rewrite Hsplit in Hnone. discriminate.
    + intros Hclean. rewrite (split_without _ _ Hclean). reflexivity.
  - intros arg Hclean. unfold document_of_token.
    rewrite (split_without _ _ Hclean). reflexivity.
  - intros u o t extra Hu Ho Ht. unfold document_of_token.
    change (u +:+ "|" +:+ o +:+ "|" +:+ t +:+ "|" +:+ extra)
      with (u +:+ String "|" (o +:+ String "|" (t +:+ String "|" extra))).
    rewrite (split_first_piece _ _ _ Hu), (split_first_piece _ _ _ Ho),
      (split_first_piece _ _ _ Ht).
    reflexivity.
Qed.

Lemma document_of_token_fields_witness :
  document_of_token "https://example.com/a" =
    {| url := Some "https://example.com/a"; targetPath := None; transformerPath := None |} /\
  document_of_token ("u" +:+ "|" +:+ "o" +:+ "|" +:+ "t" +:+ "|" +:+ "x|y") =
    {| url := Some "u"; targetPath := Some "o"; transformerPath := Some "t" |}.
Proof.
  split.
  - apply (proj1 (proj2 (proj2 document_of_token_fields))). reflexivity.
  - apply (proj2 (proj2 (proj2 document_of_token_fields))); reflexivity.
Defined.

(** X8: the option is split at the equals sign into two pieces at most, so
    whatever follows a second equals sign is ignored: [--parallel=false=...]
    turns the flag off and [--parallel=true=...] turns it on, without a
    warning. *)
Theorem parallel_value_truncated :
  forall (v rest : string),
    contains "=" v = false ->
    option_parts ("--parallel=" +:+ v +:+ "=" +:+ rest) = ["parallel"; v] /\
    parallel_option ("--parallel=false=" +:+ rest) = Some false /\
    parallel_option ("--parallel=true=" +:+ rest) = Some true /\
    is_invalid_option ("--parallel=false=" +:+ rest) = false.
Proof.
  assert (Hparts : forall v rest : string,
             contains "=" v = false ->
             option_parts ("--parallel=" +:+ v +:+ "=" +:+ rest) = ["parallel"; v]).
  { intros v rest Hv. unfold option_parts.
    change ("--parallel=" +:+ v +:+ "=" +:+ rest)
      with ("--" +:+ ("parallel" +:+ String "=" (v +:+ String "=" rest))).
    rewrite (slice_prefix "--").
    rewrite split_first_piece by reflexivity.
    rewrite (split_first_piece _ _ _ Hv).
    destruct (split "=" rest); reflexivity. }
  intros v rest Hv. split; [apply Hparts, Hv|].
  assert (Hfalse : parallel_option ("--parallel=false=" +:+ rest) = Some false).
  { unfold parallel_option.
    change ("--parallel=false=" +:+ rest) with ("--parallel=" +:+ "false" +:+ "=" +:+ rest).
    rewrite (Hparts "false" rest eq_refl). reflexivity. }
  split; [exact Hfalse|]. split.
  - unfold parallel_option.
    change ("--parallel=true=" +:+ rest) with ("--parallel=" +:+ "true" +:+ "=" +:+ rest).
    rewrite (Hparts "true" rest eq_refl). reflexivity.
  - unfold is_invalid_option. rewrite Hfalse. apply andb_false_r.
Qed.

Lemma parallel_value_truncated_witness :
  option_parts ("--parallel=" +:+ "maybe" +:+ "=" +:+ "x=y") = ["parallel"; "maybe"] /\
  parallel (parseArgs ["--parallel=false=true"]).1 = false.
Proof.
  split.
  - apply (proj1 (parallel_value_truncated "maybe" "x=y" eq_refl)).
  - reflexivity.
Defined.

(** ** [fetchAsTextWithRetry] (lines 73-98) *)

Lemma attempt_delay_independent (fetch : Network) (url : string) (iter d d' : Z)
    (result : value) :
  attempt delay fetch url iter d result = attempt delay fetch url iter d' result.
Proof. reflexivity. Qed.

Lemma attempt_trace (fetch : Network) (url : string) (d : Z) (result : value) :
  attempt delay fetch url 0 d result =
  match fetch url 0%nat with
  | Throw e => (Throw timer_error, fetch_lines url (Some e) false)
  | Return response =>
      if status response =? 200
      then match text response with
           | Return t => (Return (Break, VStr t), fetch_lines url None false)
           | Throw e => (Throw timer_error, fetch_lines url (Some e) false)
           end
      else (Throw timer_error, fetch_lines url (Some timer_error) true)
  end.
Proof.
  unfold attempt. change (Z.to_nat 0) with 0%nat.
  destruct (fetch url 0%nat) as [response|e]; [|reflexivity].
  cbn -[indent toString]. destruct (status response =? 200); [|reflexivity].
  cbn -[indent toString]. destruct (text response); reflexivity.
Qed.

Lemma fetchAsTextWithRetry_once (fetch : Network) (url : string) (maxRetries d : Z) :
  0 < maxRetries ->
  fetchAsTextWithRetry fetch url maxRetries d =
  match attempt delay fetch url 0 0 VNull with
  | (Return (_, result), out) => (Return result, out)
  | (Throw e, out) => (Throw e, out)
  end.
Proof.
  intros Hpos. unfold fetchAsTextWithRetry.
  destruct (Z.to_nat maxRetries) as [|remaining] eqn:E; [lia|].
  rewrite retry_loop_first, (attempt_delay_independent fetch url 0 d 0).
  pose proof (attempt_outcome fetch url 0 0 VNull) as Ho.
  destruct (attempt delay fetch url 0 0 VNull) as [[[[|] result]|e] out];
    simpl in Ho; [|reflexivity|reflexivity].
  destruct (body_of _); discriminate Ho.
Qed.



(** X10: what the fetcher returns and prints when at least one attempt is
    allowed.  A page answered with status 200 is returned after the line of
    the attempt.  In every other case the fetcher rejects with the
    [TypeError] of the timer, never with the error of the network or of the
    body, which only appears, indented, in the line [Failed to fetch URL];
    after a status other than 200 that line carries the [TypeError] of the
    timer itself. *)
Theorem fetchAsTextWithRetry_trace :
  forall (fetch : Network) (url : string) (maxRetries d : Z),
    0 < maxRetries ->
    fetchAsTextWithRetry fetch url maxRetries d =
    match fetch url 0%nat with
    | Throw e => (Throw timer_error, fetch_lines url (Some e) false)
    | Return response =>
        if status response =? 200
        then match text response with
             | Return t => (Return (VStr t), fetch_lines url None false)
             | Throw e => (Throw timer_error, fetch_lines url (Some e) false)
             end
        else (Throw timer_error, fetch_lines url (Some timer_error) true)
    end.
Proof.
  intros fetch url maxRetries d Hpos.
  rewrite (fetchAsTextWithRetry_once fetch url maxRetries d Hpos), attempt_trace.
  destruct (fetch url 0%nat) as [response|e]; [|reflexivity].
  destruct (status response =? 200); [|reflexivity].
  destruct (text response); reflexivity.
Qed.

Lemma fetchAsTextWithRetry_trace_witness :
  fetchAsTextWithRetry (fun _ _ => Throw (VError Error "getaddrinfo ENOTFOUND"))
    "https://example.com/a" 3 250 =
  (Throw timer_error,
   [(LDebug, "Attempt 0 to fetch URL https://example.com/a");
    (LError, "Failed to fetch URL https://example.com/a" +:+ newline
             +:+ "    Error: getaddrinfo ENOTFOUND")]).
Proof.
  rewrite (fetchAsTextWithRetry_trace
             (fun _ _ => Throw (VError Error "getaddrinfo ENOTFOUND"))
             "https://example.com/a" 3 250) by lia.
  reflexivity.
Defined.

(** ** [importDocument] (lines 138-193) *)

Lemma guarded_lift {A} (o : outcome A) (reason : string) :
  (try_catch (lift o) (fun e => throw_result (importFailure reason e))).1 =
  match o with
  | Return a => Return a
  | Throw e => Throw (failure_of e)
  end.
Proof.
  rewrite try_catch_outcome. destruct o as [a|e]; [reflexivity|].
  simpl (lift _).1. cbv iota. apply throw_importFailure.
Qed.

Lemma guarded_pair (first second : outcome unit) (reason : string) :
  (try_catch (lift first;; lift second)
     (fun e => throw_result (importFailure reason e))).1 =
  match first with
  | Throw e => Throw (failure_of e)
  | Return _ =>
      match second with
      | Throw e => Throw (failure_of e)
      | Return u => Return u
      end
  end.
Proof.
  rewrite try_catch_outcome.
  destruct first as [[]|e]; [destruct second as [[]|e]|];
    first [reflexivity | apply throw_importFailure].
Qed.

Section PipelineOutcome.

Context {Element Document Params : Type}.
Variable fetch : Network.
Variable host : Host Element Document Params.

Lemma importDocument_outcome (doc : ImportDocument) :
  (importDocument fetch host doc).1 = pipeline_outcome fetch host doc.
Proof.
  unfold importDocument, pipeline_outcome.
  outcome_step. simpl (log _ _).1. cbv iota.
  outcome_step. rewrite fetchAsTextWithRetry_outcome.
  change (3 <=? 0) with false. cbv iota.
  destruct (body_of _) as [t|]; [|reflexivity].
  outcome_step.
  change (truthy (VStr t)) with (negb (String.eqb t "")). rewrite negb_involutive.
  destruct (String.eqb t "").
  { rewrite throw_importFailure. reflexivity. }
  simpl (ret tt).1. cbv iota.
  outcome_step. rewrite guarded_lift.
  destruct (import_default host _) as [transformer|e1]; [|reflexivity].
  outcome_step. simpl (lift _).1.
  destruct (buildTransformConfig _ _) as [config|e2]; [|reflexivity].
  outcome_step. rewrite guarded_lift. change (toString (VStr t)) with t.
  destruct (html2docx host _ _ _) as [result|e3]; [|reflexivity].
  outcome_step. rewrite guarded_pair.
  destruct (mkdir host _) as [[]|e4]; [|reflexivity].
  destruct (writeFile host _ _) as [[]|e5]; [|reflexivity].
  outcome_step. reflexivity.
Qed.

End PipelineOutcome.

(** X11: the pipeline fulfils exactly when every stage succeeds: the first
    reply has status 200 and a body that is not empty, the module loads, it
    exposes a capability, the conversion returns, the directory is made and
    the file is written; and then it fulfils with the result of the
    conversion, unchanged. *)
Theorem importDocument_fulfils_iff :
  forall (Element Document Params : Type) (fetch : Network)
         (host : Host Element Document Params) (doc : ImportDocument)
         (result : ImportResult),
    (importDocument fetch host doc).1 = Return result <->
    exists (t : string) (transformer : option (Transformer Element Document Params))
           (config : TransformConfig Element Document Params),
      body_of (fetch (toString (of_option (url doc))) 0%nat) = Some t /\
      t <> "" /\
      import_default host (toString (of_option (transformerPath doc))) = Return transformer /\
      buildTransformConfig (targetPath doc) transformer = Return config /\
      html2docx host (toString (of_option (url doc))) t config = Return result /\
      mkdir host (dirname host (path result)) = Return tt /\
      writeFile host (path result) (docx result) = Return tt.
Proof.
  intros Element Document Params fetch host doc result.
  rewrite importDocument_outcome. unfold pipeline_outcome. split.
  - destruct (body_of _) as [t|]; [|discriminate].
    destruct (String.eqb_spec t "") as [|Ht]; [discriminate|].
    destruct (import_default host _) as [transformer|]; [|discriminate].
    destruct (buildTransformConfig _ _) as [config|] eqn:Hconfig; [|discriminate].
    destruct (html2docx host _ _ _) as [r|] eqn:Hconvert; [|discriminate].
    destruct (mkdir host _) as [[]|] eqn:Hmkdir; [|discriminate].
    destruct (writeFile host _ _) as [[]|] eqn:Hwrite; [|discriminate].
    intros [= <-]. exists t, transformer, config. repeat split; assumption.
  - intros (t & transformer & config & -> & Ht & -> & -> & -> & -> & ->).
    apply String.eqb_neq in Ht. rewrite Ht. reflexivity.
Qed.

Lemma importDocument_fulfils_iff_witness :
  (importDocument a_down converting job_b).1 =
  Return {| docx := []; html := "<html></html>"; md := ""; path := "out/b.docx" |}.
Proof.
  apply (proj2 (importDocument_fulfils_iff unit unit unit a_down converting job_b _)).
  exists "<html></html>".
  exists (Some {| transformDOM := Some (fun _ => Return tt); transform := None |}).
  exists (DOMConfig (fun _ => Return tt) (fun _ => Some "out/b.docx")).
  repeat split; try reflexivity. discriminate.
Defined.

(** X12: a page that cannot be fetched, or whose body is empty, settles the
    pipeline before the host is consulted: the pipeline rejects with the
    [TypeError] of the timer, or with the [ReferenceError] for [doc] when
    the body is empty, whatever loader, converter and filesystem it is
    given. *)
Theorem importDocument_without_page :
  forall (Element Document Params : Type) (fetch : Network)
         (host : Host Element Document Params) (doc : ImportDocument),
    (body_of (fetch (toString (of_option (url doc))) 0%nat) = None ->
     (importDocument fetch host doc).1 = Throw timer_error) /\
    (body_of (fetch (toString (of_option (url doc))) 0%nat) = Some "" ->
     (importDocument fetch host doc).1 = Throw (unbound "doc")).
Proof.
  intros Element Document Params fetch host doc.
  rewrite importDocument_outcome. unfold pipeline_outcome.
  split; intros ->; reflexivity.
Qed.

Lemma importDocument_without_page_witness :
  (importDocument a_down converting job_a).1 = Throw timer_error /\
  (importDocument (fun _ _ => Return {| status := 200; text := Return "" |})
     converting job_a).1 = Throw (unbound "doc").
Proof.
  split.
  - apply (proj1 (importDocument_without_page unit unit unit a_down converting job_a)).
    reflexivity.
  - apply (proj2 (importDocument_without_page unit unit unit
                    (fun _ _ => Return {| status := 200; text := Return "" |})
                    converting job_a)).
    reflexivity.
Defined.



(** ** The fragment contract (lines 160-169) *)

(** X14: the contract built for a module with [transform] only passes on
    what [transform] throws; when the job has no output path, the contract
    still returns an empty list of fragments as it is, and throws a
    [TypeError] as soon as there is one fragment to place. *)
Theorem fragment_contract_edges :
  forall (Element Document Params : Type) (targetPath : option string)
         (g : TransformArgs Document Params -> outcome (list (Element * string))),
  exists transform' : TransformArgs Document Params -> outcome (list (Element * string)),
    buildTransformConfig targetPath (Some {| transformDOM := None; transform := Some g |})
    = Return (FragmentConfig transform') /\
    (forall args e, g args = Throw e -> transform' args = Throw e) /\
    (forall args, g args = Return [] -> transform' args = Return []) /\
    (forall args item rest,
        targetPath = None -> g args = Return (item :: rest) ->
        transform' args = Throw no_output_path).
Proof.
  intros Element Document Params targetPath g. eexists. split; [reflexivity|].
  cbv beta. split; [|split].
  - intros args e ->. reflexivity.
  - intros args ->. reflexivity.
  - intros args item rest -> ->. reflexivity.
Qed.

Lemma fragment_contract_edges_witness :
  exists transform' : TransformArgs unit unit -> outcome (list (nat * string)),
    buildTransformConfig None
      (Some {| transformDOM := None;
               transform := Some (fun _ => Return [(1%nat, "a/b/c.png")]) |})
    = Return (FragmentConfig transform') /\
    transform' {| arg_url := "u"; arg_document := tt; arg_html := ""; arg_params := tt |}
    = Throw no_output_path.
Proof.
  destruct (fragment_contract_edges nat unit unit None
              (fun _ => Return [(1%nat, "a/b/c.png")]))
    as (transform' & Hbuild & _ & _ & Hthrow).
  exists transform'. split; [exact Hbuild|].
  apply (Hthrow _ (1%nat, "a/b/c.png") []); reflexivity.
Defined.

Lemma last_split_after (c : ascii) (p rest : string) :
  last (split c (p +:+ String c rest)) = last (split c rest).
Proof.
  induction p as [|a p IH].
  - rewrite append_empty_l. simpl. rewrite Ascii.eqb_refl.
    pose proof (split_not_nil c rest). destruct (split c rest); [congruence|reflexivity].
  - rewrite append_cons. simpl split. rewrite <- IH.
    assert (Hc : contains c (p +:+ String c rest) = true).
    { rewrite contains_append. simpl. rewrite Ascii.eqb_refl. apply orb_true_r. }
    destruct (split_with _ _ Hc) as (p1 & p2 & ps & ->).
    destruct (Ascii.eqb a c); reflexivity.
Qed.

Lemma last_segment_of_file (prefix name : string) :
  contains "/" name = false ->
  last_segment (prefix +:+ "/" +:+ name) = name /\ last_segment name = name.
Proof.
  intros Hname. unfold last_segment.
  change (prefix +:+ "/" +:+ name) with (prefix +:+ String "/" name).
  rewrite last_split_after, (split_without _ _ Hname). split; reflexivity.
Qed.

(** X15: the directories of a fragment path are discarded: a path
    [prefix/name] is placed where the bare [name] is placed, directly under
    the output path, so that fragments of the same name from different
    directories get the same path. *)
Theorem rewritePath_flattens :
  forall (dir prefix prefix' name : string),
    contains "/" name = false ->
    rewritePath (Some dir) (prefix +:+ "/" +:+ name) = rewritePath (Some dir) name /\
    rewritePath (Some dir) (prefix +:+ "/" +:+ name) = Return (join_under dir name) /\
    rewritePath (Some dir) (prefix +:+ "/" +:+ name) =
    rewritePath (Some dir) (prefix' +:+ "/" +:+ name).
Proof.
  intros dir prefix prefix' name Hname.
  rewrite !rewritePath_join.
  destruct (last_segment_of_file prefix name Hname) as [-> ->].
  destruct (last_segment_of_file prefix' name Hname) as [-> _].
  repeat split; reflexivity.
Qed.

Lemma rewritePath_flattens_witness :
  rewritePath (Some "out") ("img/2024" +:+ "/" +:+ "logo.png") =
  rewritePath (Some "out") ("css" +:+ "/" +:+ "logo.png").
Proof.
  apply (proj2 (proj2 (rewritePath_flattens "out" "img/2024" "css" "logo.png" eq_refl))).
Defined.

(** ** The report of [main] (lines 223-228) *)

Lemma bind_console {A B} (m : M A) (k : A -> M B) (a : A) :
  m.1 = Return a -> (bind m k).2 = m.2 ++ (k a).2.
Proof.
  destruct m as [[a'|e] out]; simpl; [|discriminate].
  intros [= ->]. destruct (k a); reflexivity.
Qed.

Lemma report_failure_returns (f : value) :
  nullish f = false ->
  exists line, report_failure f = (Return tt, [line]).
Proof.
  intros Hf. unfold report_failure.
  destruct f; try discriminate Hf; cbn -[indent toString Json.stringify];
    eexists; reflexivity.
Qed.

Lemma report_failure_throws (f : value) :
  nullish f = true ->
  report_failure f =
  (Throw (VError TypeError "Cannot destructure property 'document'"), []).
Proof. destruct f; try discriminate; reflexivity. Qed.

Lemma report_each_returns (fs : list value) :
  forallb (fun f => negb (nullish f)) fs = true ->
  (report_each fs).1 = Return tt /\ length (report_each fs).2 = length fs.
Proof.
  induction fs as [|f fs IH]; [split; reflexivity|].
  simpl forallb. intros [Hf Hfs]%andb_true_iff. apply negb_true_iff in Hf.
  destruct (report_failure_returns f Hf) as [line Hline].
  destruct (IH Hfs) as [IH1 IH2].
  simpl report_each. split.
  - rewrite bind_outcome, Hline. exact IH1.
  - rewrite (bind_console _ _ tt) by (rewrite Hline; reflexivity).
    rewrite Hline. simpl. rewrite IH2. reflexivity.
Qed.

Lemma report_each_stops (fs : list value) (f : value) (rest : list value) :
  forallb (fun f => negb (nullish f)) fs = true ->
  nullish f = true ->
  (report_each (fs ++ f :: rest)).1 =
    Throw (VError TypeError "Cannot destructure property 'document'") /\
  length (report_each (fs ++ f :: rest)).2 = length fs.
Proof.
  intros Hfs Hf. induction fs as [|g fs IH].
  - simpl. rewrite (report_failure_throws f Hf). split; reflexivity.
  - simpl forallb in Hfs. apply andb_true_iff in Hfs as [Hg Hfs].
    apply negb_true_iff in Hg.
    destruct (report_failure_returns g Hg) as [line Hline].
    destruct (IH Hfs) as [IH1 IH2].
    change ((g :: fs) ++ f :: rest) with (g :: (fs ++ f :: rest)).
    simpl report_each. split.
    + rewrite bind_outcome, Hline. exact IH1.
    + rewrite (bind_console _ _ tt) by (rewrite Hline; reflexivity).
      rewrite Hline. simpl. rewrite IH2. reflexivity.
Qed.

Lemma report_unfold (f : value) (fs : list value) :
  report (f :: fs) =
  (log LError ("Failed to import " +:+ pretty (length (f :: fs)) +:+ " documents");;
   report_each (f :: fs)).
Proof. reflexivity. Qed.

(** X16: the report prints nothing when there is no failure; otherwise it
    prints the count and then one line for each failure, and returns,
    provided no failure is [null] or [undefined]; at the first failure that
    is, it throws a [TypeError], having printed the count and the lines of
    the failures before it. *)
Theorem report_shape :
  report [] = (Return tt, []) /\
  (forall fs : list value,
     fs <> [] ->
     forallb (fun f => negb (nullish f)) fs = true ->
     (report fs).1 = Return tt /\ length (report fs).2 = S (length fs)) /\
  (forall (fs : list value) (f : value) (rest : list value),
     forallb (fun f => negb (nullish f)) fs = true ->
     nullish f = true ->
     (report (fs ++ f :: rest)).1 =
       Throw (VError TypeError "Cannot destructure property 'document'") /\
     length (report (fs ++ f :: rest)).2 = S (length fs)).
Proof.
  split; [reflexivity|]. split.
  - intros [|f fs] Hne Hfs; [congruence|].
    destruct (report_each_returns (f :: fs) Hfs) as [H1 H2].
    rewrite report_unfold. split.
    + rewrite bind_outcome. exact H1.
    + rewrite (bind_console _ _ tt) by reflexivity.
      rewrite length_app, H2. reflexivity.
  - intros fs f rest Hfs Hf.
    destruct (report_each_stops fs f rest Hfs Hf) as [H1 H2].
    destruct (fs ++ f :: rest) as [|g gs] eqn:E; [destruct fs; discriminate E|].
    rewrite report_unfold. split.
    + rewrite bind_outcome. exact H1.
    + rewrite (bind_console _ _ tt) by reflexivity.
      rewrite length_app, H2. reflexivity.
Qed.

Lemma report_shape_witness :
  (report [timer_error; unbound "e"]).1 = Return tt /\
  length (report [timer_error; unbound "e"]).2 = 3%nat /\
  (report ([timer_error] ++ VNull :: [unbound "e"])).1 =
    Throw (VError TypeError "Cannot destructure property 'document'").
Proof.
  destruct report_shape as (_ & Hreturns & Hstops).
  destruct (Hreturns [timer_error; unbound "e"]) as [H1 H2];
    [discriminate | reflexivity |].
  destruct (Hstops [timer_error] VNull [unbound "e"]) as [H3 _];
    [reflexivity | reflexivity |].
  split; [exact H1|]. split; [exact H2|exact H3].
Defined.

Lemma report_each_errors (fs : list value) :
  Forall (fun f => exists k message, f = VError k message) fs ->
  report_each fs = (Return tt, replicate (length fs) anonymous_line).
Proof.
  induction fs as [|f fs IH]; intros Hfs; [reflexivity|].
  inversion Hfs as [|? ? (k & message & ->) Hrest]; subst.
  simpl report_each. rewrite (IH Hrest). reflexivity.
Qed.

Lemma report_errors (fs : list value) :
  Forall (fun f => exists k message, f = VError k message) fs ->
  report fs =
  (Return tt,
   if (length fs =? 0)%nat then []
   else count_line (length fs) :: replicate (length fs) anonymous_line).
Proof.
  intros Hfs. destruct fs as [|f fs]; [reflexivity|].
  rewrite report_unfold, (report_each_errors _ Hfs). reflexivity.
Qed.

(** X17: a failure that is an error object has neither a [document] nor a
    [reason], so its line in the report reads [undefined] twice: a report of
    error objects is the count followed by that line, once for each
    failure, and says nothing of the jobs that failed. *)
Theorem report_of_errors :
  forall fs : list value,
    fs <> [] ->
    Forall (fun f => exists k message, f = VError k message) fs ->
    report fs = (Return tt, count_line (length fs) :: replicate (length fs) anonymous_line).
Proof.
  intros [|f fs] Hne Hfs; [congruence|].
  rewrite (report_errors _ Hfs). reflexivity.
Qed.

Lemma report_of_errors_witness :
  report [timer_error; unbound "e"] =
  (Return tt, [count_line 2; anonymous_line; anonymous_line]).
Proof.
  apply (report_of_errors [timer_error; unbound "e"]); [discriminate|].
  repeat constructor; eexists; eexists; reflexivity.
Defined.

(** ** [main] (lines 195-229) *)





(** X19: the two modes record the same: once every job has settled, the
    parallel run has the jobs started and the failures that the sequential
    run has, in the same order. *)
Theorem modes_agree :
  forall (R : Type) (run : ImportDocument -> outcome R)
         (docs : list ImportDocument) (schedule : list nat),
    Permutation schedule (seq 0 (length docs)) ->
    runParallel run docs schedule = Some (runSequential run docs).
Proof.
  intros R run docs schedule Hperm.
  rewrite (runParallel_settled run _ _ Hperm), runSequential_all. reflexivity.
Qed.

Lemma modes_agree_witness :
  runParallel (fun doc => (importDocument a_down no_module doc).1)
    [job_a; job_b] [1; 0]%nat =
  Some (runSequential (fun doc => (importDocument a_down no_module doc).1) [job_a; job_b]).
Proof.
  apply (modes_agree _ (fun doc => (importDocument a_down no_module doc).1)
           [job_a; job_b] [1; 0]%nat).
  apply perm_swap.
Defined.

Lemma failures_from_jobs {R} (run : ImportDocument -> outcome R)
    (docs : list ImportDocument) (f : value) :
  In f (failures_in_list_order run docs) <-> exists doc, In doc docs /\ run doc = Throw f.
Proof.
  unfold failures_in_list_order. induction docs as [|doc docs IH].
  - simpl. split; [intros []|intros (doc & [] & _)].
  - cbn. destruct (run doc) as [r|e] eqn:Hrun; cbn.
    + rewrite IH. split.
      * intros (d & Hd & Hf). exists d. split; [right; exact Hd|exact Hf].
      * intros (d & [<-|Hd] & Hf); [congruence|]. exists d. split; assumption.
    + rewrite IH. split.
      * intros [<-|(d & Hd & Hf)].
        -- exists doc. split; [left; reflexivity|exact Hrun].
        -- exists d. split; [right; exact Hd|exact Hf].
      * intros (d & [<-|Hd] & Hf).
        -- left. congruence.
        -- right. exists d. split; assumption.
Qed.

(** X20: in sequential mode the failures come from the jobs and from
    nothing else: a value is among the failures exactly when the pipeline
    of some job of the list rejected with it, there are at most as many
    failures as jobs, and there is none exactly when no job failed, in
    which case the report prints nothing. *)
Theorem sequential_failures_sound :
  forall (R : Type) (run : ImportDocument -> outcome R) (docs : list ImportDocument),
    (forall f : value,
        In f (failures (runSequential run docs)) <->
        exists doc, In doc docs /\ run doc = Throw f) /\
    (length (failures (runSequential run docs)) <= length docs)%nat /\
    (failures (runSequential run docs) = [] <->
     forall doc, In doc docs -> fails run doc = false) /\
    ((forall doc, In doc docs -> fails run doc = false) ->
     report (failures (runSequential run docs)) = (Return tt, [])).
Proof.
  intros R run docs. rewrite runSequential_all. simpl failures.
  assert (Hempty : failures_in_list_order run docs = [] <->
                   forall doc, In doc docs -> fails run doc = false).
  { split.
    - intros Hnil doc Hdoc. unfold fails.
      destruct (run doc) as [r|e] eqn:Hrun; [reflexivity|].
      assert (Hin : In e (failures_in_list_order run docs)).
      { apply failures_from_jobs. exists doc. split; assumption. }
      rewrite Hnil in Hin. destruct Hin.
    - intros Hall. destruct (failures_in_list_order run docs) as [|f fs] eqn:E;
        [reflexivity|].
      assert (Hin : In f (failures_in_list_order run docs)) by (rewrite E; left; reflexivity).
      apply failures_from_jobs in Hin as (doc & Hdoc & Hrun).
      specialize (Hall doc Hdoc). unfold fails in Hall. rewrite Hrun in Hall.
      discriminate. }
  split; [apply failures_from_jobs|]. split; [|split; [exact Hempty|]].
  - rewrite failures_count. apply filter_length_le.
  - intros Hall. apply Hempty in Hall. rewrite Hall. reflexivity.
Qed.

Lemma sequential_failures_sound_witness :
  report (failures (runSequential (fun doc => (importDocument serving converting doc).1)
                      [job_a; job_b])) = (Return tt, []).
Proof.
  apply (proj2 (proj2 (proj2 (sequential_failures_sound _
           (fun doc => (importDocument serving converting doc).1) [job_a; job_b])))).
  intros doc [<-|[<-|[]]]; reflexivity.
Defined.

(** X21: with job tokens only, every token is a job, in order, the flag
    keeps its default, true, and nothing is printed. *)
Theorem parseArgs_jobs_only :
  forall args : list string,
    forallb is_job_token args = true ->
    parseArgs args =
    ({| documents := map document_of_token args; parallel := true |}, []).
Proof.
  intros args Hjobs.
  assert (Hfilter : List.filter is_job_token args = args).
  { induction args as [|arg args IH]; [reflexivity|].
    simpl in *. apply andb_true_iff in Hjobs as [Harg Hargs].
    rewrite Harg, (IH Hargs). reflexivity. }
  assert (Hnone : omap parallel_option args = [] /\
                  List.filter is_invalid_option args = []).
  { clear Hfilter. induction args as [|arg args IH]; [split; reflexivity|].
    simpl in Hjobs. apply andb_true_iff in Hjobs as [Harg Hargs].
    destruct (IH Hargs) as [IH1 IH2].
    unfold is_job_token in Harg. apply negb_true_iff in Harg.
    cbn. unfold is_invalid_option, parallel_option at 1. rewrite Harg. cbn.
    split; [exact IH1|exact IH2]. }
  destruct Hnone as [Hoptions Hinvalid].
  pose proof (parseArgs_from_documents args (initial_config, [])) as Hdocs.
  pose proof (parseArgs_from_parallel args (initial_config, [])) as Hflag.
  pose proof (parseArgs_console_shape args) as [_ Hlen].
  rewrite Hfilter in Hdocs. rewrite Hoptions in Hflag. rewrite Hinvalid in Hlen.
  unfold parseArgs.
  destruct (parseArgs_from (initial_config, []) args) as [[docs flag] console].
  simpl in *. subst. destruct console; [reflexivity|discriminate].
Qed.

Lemma parseArgs_jobs_only_witness :
  parseArgs ["a|b|c"; "-x"; ""] =
  ({| documents := map document_of_token ["a|b|c"; "-x"; ""]; parallel := true |}, []).
Proof. apply parseArgs_jobs_only. reflexivity. Defined.

(** ** The console of the pipeline *)

(** Running the binds of a computation whose next step is known. *)
Ltac console_step :=
  cbn [bind log ret lift try_catch throw throw_result fst snd].

Section PipelineConsole.

Context {Element Document Params : Type}.
Variable fetch : Network.
Variable host : Host Element Document Params.

Lemma importDocument_console (doc : ImportDocument) :
  (importDocument fetch host doc).2 =
  start_line doc
    :: (fetchAsTextWithRetry fetch (toString (of_option (url doc))) 3 250).2
    ++ match pipeline_outcome fetch host doc with
       | Return _ => [success_line doc]
       | Throw _ => []
       end.
Proof.
  unfold importDocument, pipeline_outcome, start_line, success_line.
  pose proof (fetchAsTextWithRetry_outcome fetch (toString (of_option (url doc))) 3 250)
    as Hfetch.
  change (3 <=? 0) with false in Hfetch. cbv iota in Hfetch.
  destruct (fetchAsTextWithRetry fetch (toString (of_option (url doc))) 3 250)
    as [fetched out].
  simpl in Hfetch. subst fetched.
  destruct (body_of _) as [t|]; console_step; [|rewrite app_nil_r; reflexivity].
  change (truthy (VStr t)) with (negb (String.eqb t "")).
  rewrite negb_involutive.
  destruct (String.eqb t "").
  { rewrite importFailure_throws. console_step. rewrite !app_nil_r. reflexivity. }
  console_step. change (toString (VStr t)) with t.
  destruct (import_default host _) as [transformer|e1].
  2:{ console_step. rewrite importFailure_throws. console_step.
      rewrite !app_nil_r. reflexivity. }
  console_step.
  destruct (buildTransformConfig _ _) as [config|e2].
  2:{ console_step. rewrite !app_nil_r. reflexivity. }
  console_step.
  destruct (html2docx host _ _ _) as [result|e3].
  2:{ console_step. rewrite importFailure_throws. console_step.
      rewrite !app_nil_r. reflexivity. }
  console_step.
  destruct (mkdir host _) as [[]|e4].
  2:{ console_step. rewrite importFailure_throws. console_step.
      rewrite !app_nil_r. reflexivity. }
  console_step.
  destruct (writeFile host _ _) as [[]|e5].
  2:{ console_step. rewrite importFailure_throws. console_step.
      rewrite !app_nil_r. reflexivity. }
  console_step. rewrite !app_nil_r. reflexivity.
Qed.

End PipelineConsole.

Lemma fetch_console_cases (fetch : Network) (url : string) (maxRetries d : Z) :
  0 < maxRetries ->
  exists caught bad_status,
    (fetchAsTextWithRetry fetch url maxRetries d).2 = fetch_lines url caught bad_status.
Proof.
  intros Hpos.
  rewrite (fetchAsTextWithRetry_once fetch url maxRetries d Hpos), attempt_trace.
  destruct (fetch url 0%nat) as [response|e]; [|eexists; eexists; reflexivity].
  destruct (status response =? 200); [|eexists; eexists; reflexivity].
  destruct (text response); eexists; eexists; reflexivity.
Qed.

Lemma success_line_not_fetched (doc : ImportDocument) (url : string)
    (caught : option value) (bad_status : bool) :
  ~ In (success_line doc) (fetch_lines url caught bad_status).
Proof.
  unfold fetch_lines, success_line. intros Hin.
  apply in_app_or in Hin as [Hin|Hin].
  - destruct Hin as [Heq|[]]. discriminate Heq.
  - apply in_app_or in Hin as [Hin|Hin].
    + destruct bad_status; [|destruct Hin]. destruct Hin as [Heq|[]]. discriminate Heq.
    + destruct caught; [|destruct Hin]. destruct Hin as [Heq|[]]. discriminate Heq.
Qed.

(** X22: the console of a pipeline run opens with the line that announces
    the job, goes on with the lines of the fetcher, and ends with the line
    of success exactly when the pipeline fulfils; on a run that rejects,
    the line of success is not printed and nothing is printed after the
    fetcher. *)
Theorem importDocument_lines :
  forall (Element Document Params : Type) (fetch : Network)
         (host : Host Element Document Params) (doc : ImportDocument),
    (importDocument fetch host doc).2 =
      start_line doc
        :: (fetchAsTextWithRetry fetch (toString (of_option (url doc))) 3 250).2
        ++ match (importDocument fetch host doc).1 with
           | Return _ => [success_line doc]
           | Throw _ => []
           end /\
    (In (success_line doc) (importDocument fetch host doc).2 <->
     exists result, (importDocument fetch host doc).1 = Return result).
Proof.
  intros Element Document Params fetch host doc.
  rewrite importDocument_console, importDocument_outcome.
  split; [reflexivity|].
  destruct (fetch_console_cases fetch (toString (of_option (url doc))) 3 250)
    as (caught & bad_status & ->); [lia|].
  split.
  - intros [Heq|Hin]; [discriminate Heq|].
    apply in_app_or in Hin as [Hin|Hin];
      [destruct (success_line_not_fetched _ _ _ _ Hin)|].
    destruct (pipeline_outcome fetch host doc) as [result|e]; [|destruct Hin].
    exists result. reflexivity.
  - intros [result ->]. right. apply in_or_app. right. left. reflexivity.
Qed.
